(** * Semantic chunking pipeline of the knowledge base (lib/kb)

    A shallow embedding of [text-processing.js], [similarity.js] and
    [semantic-chunking.js], and of [generateEmbeddingsBatch] of
    [embeddings.js], with the properties of the natural-language
    specification that concern them and further properties of the code.

    - JavaScript strings are sequences of UTF-16 code units: [list N].
    - JavaScript numbers are IEEE 754 binary64 values: Rocq's primitive
      [float], whose operations are the same ones.
    - [throw new Error(...)] is a value of [error] returned in [result]. *)

From Stdlib Require Import String Ascii DecimalString.
From Stdlib Require Import List NArith ZArith Bool Lia PrimFloat.
Import ListNotations.
Import Corelib.Init.Datatypes.

(* ================================================================== *)
(** * JavaScript strings *)
(* ================================================================== *)

Module JsString.

Definition jsstring := list N.

(** Code units of an ASCII literal, for readable examples. *)
Definition js (s : string) : jsstring :=
  map N_of_ascii (list_ascii_of_string s).

Definition SPACE : N := 32%N.
Definition NEWLINE : N := 10%N.

(** The class [\s] of regular expressions, which is also the set that
    [String.prototype.trim] strips: WhiteSpace and LineTerminator. *)
Definition isWhiteSpace (c : N) : bool :=
  ((9 <=? c) && (c <=? 13) || (c =? 32) || (c =? 160) || (c =? 5760)
   || (8192 <=? c) && (c <=? 8202) || (c =? 8232) || (c =? 8233)
   || (c =? 8239) || (c =? 8287) || (c =? 12288) || (c =? 65279))%N.

(** [/[A-Z]/] and [/[A-Za-z]/]. *)
Definition isUpper (c : N) : bool := ((65 <=? c) && (c <=? 90))%N.
Definition isLetter (c : N) : bool :=
  (isUpper c || (97 <=? c) && (c <=? 122))%N.

Fixpoint trimStart (s : jsstring) : jsstring :=
  match s with
  | [] => []
  | c :: r => if isWhiteSpace c then trimStart r else s
  end.

Fixpoint trimEnd (s : jsstring) : jsstring :=
  match s with
  | [] => []
  | c :: r =>
      match trimEnd r with
      | [] => if isWhiteSpace c then [] else [c]
      | r' => c :: r'
      end
  end.

(** [s.trim()] *)
Definition trim (s : jsstring) : jsstring := trimEnd (trimStart s).

(** [s.replace(/\s+/g, ' ')]: every maximal run of white space becomes
    one space.  [inRun] tells that the previous code unit belonged to
    the run being replaced. *)
Fixpoint replaceWhitespaceRuns (inRun : bool) (s : jsstring) : jsstring :=
  match s with
  | [] => []
  | c :: r =>
      if isWhiteSpace c
      then if inRun then replaceWhitespaceRuns true r
           else SPACE :: replaceWhitespaceRuns true r
      else c :: replaceWhitespaceRuns false r
  end.

(** What a run of [n] newlines becomes under [/\n{3,}/g -> '\n\n']. *)
Definition flushNewlines (n : nat) : jsstring :=
  if (3 <=? n)%nat then [NEWLINE; NEWLINE] else repeat NEWLINE n.

(** [s.replace(/\n{3,}/g, '\n\n')]: [run] counts the newlines of the
    run being read; the quantifier is greedy, so a run is matched
    whole. *)
Fixpoint replaceNewlineRuns (run : nat) (s : jsstring) : jsstring :=
  match s with
  | [] => flushNewlines run
  | c :: r =>
      if (c =? NEWLINE)%N then replaceNewlineRuns (S run) r
      else flushNewlines run ++ c :: replaceNewlineRuns 0 r
  end.

(** [s.substring(a, b)]: the arguments are clamped to the length and
    swapped when [a > b]. *)
Definition substring (s : jsstring) (a b : nat) : jsstring :=
  let a' := Nat.min a (length s) in
  let b' := Nat.min b (length s) in
  let lo := Nat.min a' b' in
  let hi := Nat.max a' b' in
  firstn (hi - lo) (skipn lo s).

(** [s.substring(a)] *)
Definition substringFrom (s : jsstring) (a : nat) : jsstring :=
  substring s a (length s).

(** [s[i]], [undefined] out of range. *)
Definition charAt (s : jsstring) (i : nat) : option N := nth_error s i.

(** [parts.join(' ')] *)
Fixpoint joinSpace (parts : list jsstring) : jsstring :=
  match parts with
  | [] => []
  | [p] => p
  | p :: rest => p ++ SPACE :: joinSpace rest
  end.

(** [s.includes(t)] *)
Fixpoint startsWith (s t : jsstring) : bool :=
  match t, s with
  | [], _ => true
  | _ :: _, [] => false
  | d :: t', c :: s' => (c =? d)%N && startsWith s' t'
  end.

Fixpoint includes (s t : jsstring) : bool :=
  startsWith s t
  || match s with
     | [] => false
     | _ :: s' => includes s' t
     end.

End JsString.
Import JsString.

(* ================================================================== *)
(** * text-processing.js *)
(* ================================================================== *)

(** [normalizeText(text)] on a string.  The guard [!text] returns [''] for
    the empty string; values that are not strings are outside [jsstring]. *)
Definition normalizeText (text : jsstring) : jsstring :=
  match text with
  | [] => []
  | _ =>
      trim (replaceNewlineRuns 0 (replaceWhitespaceRuns false (trim text)))
  end.


(** [/[.!?]/] *)
Definition isSentenceEnd (c : N) : bool :=
  ((c =? 46) || (c =? 33) || (c =? 63))%N.

(** A match of [/([.!?])(\s+|$)/]: [match.index] and [match[0].length]. *)
Record RegExpMatch := { index : nat; matchLength : nat }.

Fixpoint countWhitespace (s : jsstring) : nat :=
  match s with
  | c :: r => if isWhiteSpace c then S (countWhitespace r) else 0
  | [] => 0
  end.

(** The successive results of [sentenceEndPattern.exec(normalized)], from
    [lastIndex = 0] until [null].  The pattern has the [g] flag and the
    loop never writes its [lastIndex], so the calls enumerate the matches
    from left to right, each search starting where the previous match
    ended.  [s] is the rest of the string from position [idx]; [skip] code
    units of it belong to the previous match. *)
Fixpoint execAll (s : jsstring) (idx skip : nat) : list RegExpMatch :=
  match s with
  | [] => []
  | c :: r =>
      match skip with
      | S k => execAll r (S idx) k
      | O =>
          if isSentenceEnd c then
            match r with
            | [] => [{| index := idx; matchLength := 1 |}]
            | d :: _ =>
                if isWhiteSpace d
                then {| index := idx; matchLength := 1 + countWhitespace r |}
                     :: execAll r (S idx) (countWhitespace r)
                else execAll r (S idx) 0
            end
          else execAll r (S idx) 0
      end
  end.

(** The candidate sentence of one iteration:
    [normalized.substring(lastIndex, endIndex).trim()]. *)
Definition candidate (normalized : jsstring) (lastIndex : nat)
    (m : RegExpMatch) : jsstring :=
  trim (substring normalized lastIndex (index m + 1)).

(** The body of the [while] loop on the state [(sentences, lastIndex)]. *)
Definition loopBody (normalized : jsstring) (st : list jsstring * nat)
    (m : RegExpMatch) : list jsstring * nat :=
  let sentence := candidate normalized (snd st) m in
  if ((0 <? length sentence) && (2 <? length sentence))%nat then
    let beforeChar :=
      if (index m =? 0)%nat then None else charAt normalized (index m - 1) in
    let isAbbreviation :=
      match beforeChar with Some c => isLetter c | None => false end in
    if isAbbreviation && (index m + 2 <? length normalized)%nat then
      match charAt normalized (index m + 2) with
      | Some afterSpace =>
          if isUpper afterSpace
          then (fst st ++ [sentence], index m + matchLength m)
          else st
      | None => st
      end
    else (fst st ++ [sentence], index m + matchLength m)
  else st.

(** The whole [while] loop. *)
Definition splitLoop (normalized : jsstring) : list jsstring * nat :=
  fold_left (loopBody normalized) (execAll normalized 0 0) ([], 0).


Definition normalizeForSplit (text : jsstring) : jsstring :=
  replaceWhitespaceRuns false (trim text).


(** "Add remaining text". *)
Definition addRemaining (normalized : jsstring) (st : list jsstring * nat)
    : list jsstring :=
  if (snd st <? length normalized)%nat then
    let remaining := trim (substringFrom normalized (snd st)) in
    if (0 <? length remaining)%nat then fst st ++ [remaining] else fst st
  else fst st.

(** [splitIntoSentences(text)] on a string. *)
Definition splitIntoSentences (text : jsstring) : list jsstring :=
  match text with
  | [] => []
  | _ =>
      let normalized := normalizeForSplit text in
      if (length normalized =? 0)%nat then []
      else
        match addRemaining normalized (splitLoop normalized) with
        | [] => [normalized]
        | sentences => sentences
        end
  end.

(* ================================================================== *)
(** * Errors *)
(* ================================================================== *)

(** The [Error] values thrown by the three modules, named after their
    messages.  [ProviderError] is any error of the embedding provider. *)
Inductive error : Type :=
| VectorLengthMismatch (lengthA lengthB : nat)
| VectorsMustNotBeEmpty
| ProviderError (message : jsstring)
| FailedToGenerateEmbeddings (cause : error)
| EmbeddingCountMismatch (embeddings sentences : nat).

Inductive result (A : Type) : Type :=
| Ok (a : A)
| Err (e : error).
Arguments Ok {A} a.
Arguments Err {A} e.

Definition bind {A B : Type} (r : result A) (k : A -> result B) : result B :=
  match r with
  | Ok a => k a
  | Err e => Err e
  end.

Notation "x <- r ;; k" := (bind r (fun x => k))
  (at level 61, r at next level, right associativity).

(** [xs.map(f)] where [f] may throw: the first failure ends the call. *)
Fixpoint mapM {A B : Type} (f : A -> result B) (xs : list A)
    : result (list B) :=
  match xs with
  | [] => Ok []
  | x :: r => y <- f x ;; ys <- mapM f r ;; Ok (y :: ys)
  end.

(* ================================================================== *)
(** * similarity.js *)
(* ================================================================== *)

Definition vector := list float.

Definition dotProduct (vecA vecB : vector) : result float :=
  if negb (length vecA =? length vecB)%nat
  then Err (VectorLengthMismatch (length vecA) (length vecB))
  else Ok (fold_left (fun sum ab => (sum + fst ab * snd ab)%float)
                     (combine vecA vecB) 0%float).

Definition magnitude (vec : vector) : float :=
  sqrt (fold_left (fun sum x => (sum + x * x)%float) vec 0%float).

(** [cosineSimilarity(vecA, vecB)].  The first guard, [!vecA || !vecB],
    rejects [null] and [undefined], which are not in [vector]. *)
Definition cosineSimilarity (vecA vecB : vector) : result float :=
  if negb (length vecA =? length vecB)%nat
  then Err (VectorLengthMismatch (length vecA) (length vecB))
  else if (length vecA =? 0)%nat then Err VectorsMustNotBeEmpty
  else
    dot <- dotProduct vecA vecB ;;
    let magA := magnitude vecA in
    let magB := magnitude vecB in
    if (magA =? 0)%float || (magB =? 0)%float then Ok 0%float
    else Ok (dot / (magA * magB))%float.

(** [cosineSimilarityBatch(baseVector, vectors)]. *)
Definition cosineSimilarityBatch (baseVector : vector)
    (vectors : list vector) : result (list float) :=
  let magA := magnitude baseVector in
  mapM (fun vecB =>
          if negb (length vecB =? length baseVector)%nat
          then Err (VectorLengthMismatch (length baseVector) (length vecB))
          else
            dot <- dotProduct baseVector vecB ;;
            let magB := magnitude vecB in
            if (magA =? 0)%float || (magB =? 0)%float then Ok 0%float
            else Ok (dot / (magA * magB))%float)
       vectors.

(* ================================================================== *)
(** * semantic-chunking.js *)
(* ================================================================== *)

Inductive AuthorRole : Type := client | team.

Definition isClient (r : AuthorRole) : bool :=
  match r with client => true | team => false end.

(** A message; [content] may be missing.  The [author] field is never
    read by the chunker. *)
Module Message.
Record t := { content : option jsstring; timestamp : Z; isTeam : bool }.
End Message.

Module Sentence.
Record t := {
  text : jsstring;
  author_role : AuthorRole;
  message_timestamp : Z;
  message_index : nat;
  original_message : Message.t }.
End Sentence.

(** The chunk being built, [currentChunk]. *)
Module Accumulator.
Record t := {
  sentences : list Sentence.t;
  embeddings : list vector;
  startTimestamp : Z;
  author_role : AuthorRole }.
End Accumulator.

Module Chunk.
Record metadata_t := { sentence_count : nat; original_length : nat }.
Record t := {
  content : jsstring;
  author_role : AuthorRole;
  message_timestamp : Z;
  metadata : metadata_t }.
End Chunk.

(** The options object; [None] is an absent key.  The lengths are
    integers. *)
Record Options := {
  threshold : option float;
  minChunkLength : option Z;
  maxChunkLength : option Z }.

Definition noOptions : Options :=
  {| threshold := None; minChunkLength := None; maxChunkLength := None |}.

(** Truthiness of a number: [0], [-0] and [NaN] are falsy. *)
Definition truthyFloat (x : float) : bool :=
  negb (x =? 0)%float && negb (is_nan x).
Definition truthyZ (n : Z) : bool := negb (n =? 0)%Z.

(** [x || d] *)
Definition orFloat (x : option float) (d : float) : float :=
  match x with
  | Some v => if truthyFloat v then v else d
  | None => d
  end.

Definition orZ (x : option Z) (d : Z) : Z :=
  match x with
  | Some v => if truthyZ v then v else d
  | None => d
  end.

Record Config := {
  SIMILARITY_THRESHOLD : float;
  MIN_CHUNK_LENGTH : Z;
  MAX_CHUNK_LENGTH : Z }.

(** [CONFIG], built when the module is loaded.  [envThreshold] is
    [parseFloat(process.env.SEMANTIC_CHUNKING_THRESHOLD)], which is [NaN]
    when the variable is not set.  The literal is the double [0.7]. *)
Definition CONFIG (envThreshold : float) : Config :=
  {| SIMILARITY_THRESHOLD := orFloat (Some envThreshold) 0x1.6666666666666p-1;
     MIN_CHUNK_LENGTH := 10;
     MAX_CHUNK_LENGTH := 2000 |}.

(** The inner loop of step 1: the sentences of one message. *)
Fixpoint tagSentences (message : Message.t) (sentenceIndex : nat)
    (messageSentences : list jsstring) : list Sentence.t :=
  match messageSentences with
  | [] => []
  | sentence :: rest =>
      if (0 <? length (trim sentence))%nat then
        {| Sentence.text := trim sentence;
           Sentence.author_role := if Message.isTeam message then team else client;
           Sentence.message_timestamp := Message.timestamp message;
           Sentence.message_index := sentenceIndex;
           Sentence.original_message := message |}
        :: tagSentences message (S sentenceIndex) rest
      else tagSentences message sentenceIndex rest
  end.

(** Step 1: the outer loop over the messages. *)
Fixpoint prepareSentences (messages : list Message.t) (sentenceIndex : nat)
    : list Sentence.t :=
  match messages with
  | [] => []
  | message :: rest =>
      let normalizedContent :=
        normalizeText (match Message.content message with
                       | Some c => c
                       | None => []
                       end) in
      if (length normalizedContent =? 0)%nat
      then prepareSentences rest sentenceIndex
      else
        let tagged := tagSentences message sentenceIndex
                        (splitIntoSentences normalizedContent) in
        tagged ++ prepareSentences rest (sentenceIndex + length tagged)
  end.

(** [chunk.sentences.map(s => s.text).join(' ')] *)
Definition joinedContent (sentences : list Sentence.t) : jsstring :=
  joinSpace (map Sentence.text sentences).

Definition ELLIPSIS : jsstring := js "...".

(** [finalizeChunk(chunk, minLength, maxLength)]; [None] is [null]. *)
Definition finalizeChunk (chunk : Accumulator.t) (minLength maxLength : Z)
    : option Chunk.t :=
  if (length (Accumulator.sentences chunk) =? 0)%nat then None
  else
    let content := joinedContent (Accumulator.sentences chunk) in
    if (Z.of_nat (length content) <? minLength)%Z then None
    else
      let finalContent :=
        if (maxLength <? Z.of_nat (length content))%Z
        then substring content 0 (Z.to_nat maxLength) ++ ELLIPSIS
        else content in
      let hasClient :=
        existsb (fun s => isClient (Sentence.author_role s))
                (Accumulator.sentences chunk) in
      Some {| Chunk.content := trim finalContent;
              Chunk.author_role :=
                if hasClient then client else Accumulator.author_role chunk;
              Chunk.message_timestamp := Accumulator.startTimestamp chunk;
              Chunk.metadata :=
                {| Chunk.sentence_count := length (Accumulator.sentences chunk);
                   Chunk.original_length := length content |} |}.

(** [chunks.push(finalizedChunk)] when it is not [null]. *)
Definition pushFinalized (chunks : list Chunk.t) (chunk : Accumulator.t)
    (minLength maxLength : Z) : list Chunk.t :=
  match finalizeChunk chunk minLength maxLength with
  | Some finalizedChunk => chunks ++ [finalizedChunk]
  | None => chunks
  end.

(** A new accumulator holding one sentence. *)
Definition startChunk (s : Sentence.t) (e : vector) : Accumulator.t :=
  {| Accumulator.sentences := [s];
     Accumulator.embeddings := [e];
     Accumulator.startTimestamp := Sentence.message_timestamp s;
     Accumulator.author_role := Sentence.author_role s |}.

(** "Similar enough - add to current chunk". *)
Definition extendChunk (chunk : Accumulator.t) (s : Sentence.t) (e : vector)
    : Accumulator.t :=
  {| Accumulator.sentences := Accumulator.sentences chunk ++ [s];
     Accumulator.embeddings := Accumulator.embeddings chunk ++ [e];
     Accumulator.startTimestamp := Accumulator.startTimestamp chunk;
     Accumulator.author_role :=
       if isClient (Sentence.author_role s) then client
       else Accumulator.author_role chunk |}.

(** [similarity >= threshold], where [similarity] is element [0] of the
    batch result ([undefined] compares false). *)
Definition similarEnough (threshold : float) (similarities : list float)
    : bool :=
  match nth_error similarities 0 with
  | Some similarity => (threshold <=? similarity)%float
  | None => false
  end.

(** Step 3, the loop [for (let i = 1; i < sentences.length; i++)]:
    [rest] pairs [sentences[i]] with [embeddings[i]] from the current [i]
    on and [prevEmbedding] is [embeddings[i - 1]].  The state is
    [(chunks, currentChunk)]. *)
Fixpoint walk (threshold : float) (minChunkLength maxChunkLength : Z)
    (prevEmbedding : vector) (rest : list (Sentence.t * vector))
    (chunks : list Chunk.t) (currentChunk : Accumulator.t)
    : result (list Chunk.t * Accumulator.t) :=
  match rest with
  | [] => Ok (chunks, currentChunk)
  | (sentence, currEmbedding) :: rest' =>
      similarities <- cosineSimilarityBatch prevEmbedding [currEmbedding] ;;
      if similarEnough threshold similarities
      then walk threshold minChunkLength maxChunkLength currEmbedding rest'
                chunks (extendChunk currentChunk sentence currEmbedding)
      else walk threshold minChunkLength maxChunkLength currEmbedding rest'
                (pushFinalized chunks currentChunk minChunkLength maxChunkLength)
                (startChunk sentence currEmbedding)
  end.

(** The embedding provider, [generateEmbeddingsBatch]: an external
    service that may fail. *)
Definition Provider := list jsstring -> result (list vector).

(** Lines 205-207: the options in force. *)
Definition effectiveThreshold (config : Config) (options : Options) : float :=
  orFloat (threshold options) (SIMILARITY_THRESHOLD config).

Definition effectiveMinChunkLength (config : Config) (options : Options) : Z :=
  orZ (minChunkLength options) (MIN_CHUNK_LENGTH config).

Definition effectiveMaxChunkLength (config : Config) (options : Options) : Z :=
  orZ (maxChunkLength options) (MAX_CHUNK_LENGTH config).

(** [semanticChunk(messages, options)] with the provider and the
    configuration made explicit. *)
Definition semanticChunk (config : Config) (generateEmbeddingsBatch : Provider)
    (messages : list Message.t) (options : Options)
    : result (list Chunk.t) :=
  if (length messages =? 0)%nat then Ok []
  else
    let threshold := effectiveThreshold config options in
    let minChunkLength := effectiveMinChunkLength config options in
    let maxChunkLength := effectiveMaxChunkLength config options in
    let sentences := prepareSentences messages 0 in
    match sentences with
    | [] => Ok []
    | sentence0 :: sentences' =>
        match generateEmbeddingsBatch (map Sentence.text sentences) with
        | Err e => Err (FailedToGenerateEmbeddings e)
        | Ok embeddings =>
            if negb (length embeddings =? length sentences)%nat
            then Err (EmbeddingCountMismatch (length embeddings)
                                             (length sentences))
            else
              match embeddings with
              | [] => Ok [] (* not reached: the lengths are equal *)
              | embedding0 :: embeddings' =>
                  st <- walk threshold minChunkLength maxChunkLength
                          embedding0 (combine sentences' embeddings')
                          [] (startChunk sentence0 embedding0) ;;
                  Ok (pushFinalized (fst st) (snd st)
                                    minChunkLength maxChunkLength)
              end
        end
    end.

(* ================================================================== *)
(** * Specification-level views of the chunker *)
(* ================================================================== *)

(** The chunks that a sequence of accumulators yields when each is
    finalized in turn. *)
Definition emitted (minLength maxLength : Z) (accs : list Accumulator.t)
    : list Chunk.t :=
  flat_map (fun a => match finalizeChunk a minLength maxLength with
                     | Some c => [c]
                     | None => []
                     end) accs.

(** The accumulators that the loop of step 3 closes, followed by the one
    left open at the end.  It takes the decisions of [walk] and keeps the
    accumulators instead of their finalizations. *)
Fixpoint accumulate (threshold : float) (prevEmbedding : vector)
    (rest : list (Sentence.t * vector)) (currentChunk : Accumulator.t)
    : result (list Accumulator.t) :=
  match rest with
  | [] => Ok [currentChunk]
  | (sentence, currEmbedding) :: rest' =>
      similarities <- cosineSimilarityBatch prevEmbedding [currEmbedding] ;;
      if similarEnough threshold similarities
      then accumulate threshold currEmbedding rest'
                      (extendChunk currentChunk sentence currEmbedding)
      else
        accs <- accumulate threshold currEmbedding rest'
                  (startChunk sentence currEmbedding) ;;
        Ok (currentChunk :: accs)
  end.

(** A string neither starting nor ending with white space. *)
Definition trimmed (s : jsstring) : Prop := trimStart s = s /\ trimEnd s = s.

(** Trimmed and not empty: what the texts of the sentences are. *)
Definition solid (s : jsstring) : Prop := trimmed s /\ s <> [].

(** The content that finalization gives to an accumulator it keeps. *)
Definition truncatedContent (sentences : list Sentence.t) (maxLength : Z)
    : jsstring :=
  let content := joinedContent sentences in
  if (maxLength <? Z.of_nat (length content))%Z
  then substring content 0 (Z.to_nat maxLength) ++ ELLIPSIS
  else content.

(* ================================================================== *)
(** * Sample inputs *)
(* ================================================================== *)

Module Samples.

Definition message (c : string) (ts : Z) (fromTeam : bool) : Message.t :=
  {| Message.content := Some (js c);
     Message.timestamp := ts;
     Message.isTeam := fromTeam |}.

(** The conversation of the scenario in the specification. *)
Definition thanks : Message.t := message "Thanks!" 100 false.
Definition noProblem : Message.t := message "No problem, happy to help." 101 true.

Definition helloWorld : Message.t := message "Hello world." 200 false.
Definition goodbyeNow : Message.t := message "Goodbye now." 201 true.

(** A provider that gives every text the vector [v]. *)
Definition constantProvider (v : vector) : Provider :=
  fun texts => Ok (map (fun _ => v) texts).

(** A provider that gives the [i]-th text the [i]-th vector of [vs], and
    so returns a vector too few when [vs] is shorter than the texts. *)
Definition listProvider (vs : list vector) : Provider :=
  fun texts => Ok (firstn (length texts) vs).

(** [process.env.SEMANTIC_CHUNKING_THRESHOLD] not set. *)
Definition envUnset : float := nan.

Definition onlyThreshold (t : float) : Options :=
  {| threshold := Some t; minChunkLength := None; maxChunkLength := None |}.

Definition zeroOptions : Options :=
  {| threshold := Some 0%float;
     minChunkLength := Some 0%Z;
     maxChunkLength := Some 0%Z |}.

(** The chunk that the scenario of the specification expects. *)
Definition scenarioChunk : Chunk.t :=
  {| Chunk.content := js "Thanks! No problem, happy to help.";
     Chunk.author_role := client;
     Chunk.message_timestamp := 100;
     Chunk.metadata :=
       {| Chunk.sentence_count := 2; Chunk.original_length := 34 |} |}.

Definition sentence (m : Message.t) (t : string) (i : nat) : Sentence.t :=
  {| Sentence.text := js t;
     Sentence.author_role := if Message.isTeam m then team else client;
     Sentence.message_timestamp := Message.timestamp m;
     Sentence.message_index := i;
     Sentence.original_message := m |}.

Definition unitX : vector := [1%float; 0%float].

(** An accumulator whose content has 5 characters. *)
Definition shortAccumulator : Accumulator.t :=
  startChunk (sentence (message "Hello" 300 false) "Hello" 0) unitX.

(** An accumulator whose content has 25 characters. *)
Definition longAccumulator : Accumulator.t :=
  extendChunk (startChunk (sentence helloWorld "Hello world." 0) unitX)
              (sentence goodbyeNow "Goodbye now." 1) unitX.

(** Options that cut the content after 5 characters. *)
Definition truncatingOptions : Options :=
  {| threshold := None; minChunkLength := None; maxChunkLength := Some 5%Z |}.

Definition truncatedChunk : Chunk.t :=
  {| Chunk.content := js "Hello...";
     Chunk.author_role := client;
     Chunk.message_timestamp := 200;
     Chunk.metadata :=
       {| Chunk.sentence_count := 2; Chunk.original_length := 25 |} |}.

Definition zeroVector : vector := [0%float; 0%float].

End Samples.

(* ================================================================== *)
(** * text-processing.js: the guards for downstream consumers *)
(* ================================================================== *)

(** [isTooShort(text, minLength)] on a string; the default of
    [minLength] is [10]. *)
Definition isTooShort (text : jsstring) (minLength : Z) : bool :=
  match text with
  | [] => true
  | _ => (Z.of_nat (length (trim text)) <? minLength)%Z
  end.

(** [truncateText(text, maxLength, suffix)] on a string; the default
    suffix is ['...'].  A negative end of [substring] counts as [0]. *)
Definition truncateText (text : jsstring) (maxLength : Z) (suffix : jsstring)
    : jsstring :=
  match text with
  | [] => []
  | _ =>
      if (Z.of_nat (length text) <=? maxLength)%Z then text
      else
        substring text 0 (Z.to_nat (maxLength - Z.of_nat (length suffix)))
        ++ suffix
  end.

(* ================================================================== *)
(** * Further specification-level definitions *)
(* ================================================================== *)

(** The shape of a normalized text, read from left to right: no white
    space at either end, every white space a single space between two
    other characters.  [afterSpace] tells that the previous character was
    a space, or that the text starts here. *)
Fixpoint spaced (afterSpace : bool) (s : jsstring) : bool :=
  match s with
  | [] => negb afterSpace
  | c :: r =>
      if isWhiteSpace c
      then negb afterSpace && (c =? SPACE)%N && spaced true r
      else spaced false r
  end.

(** The part of a normalized text covered by the sentences [ss] emitted
    so far, when more text follows them. *)
Definition doneText (ss : list jsstring) : jsstring :=
  match ss with
  | [] => []
  | _ :: _ => joinSpace ss ++ [SPACE]
  end.

(** The state [st] at the end of the loop on the normalized text [n]
    gives sentences that make up [n]. *)
Definition finished (n : jsstring) (st : list jsstring * nat) : Prop :=
  addRemaining n st <> [] /\ joinSpace (addRemaining n st) = n.

(** A character that is none of [.], [!] and [?]. *)
Definition plain (c : N) : Prop := isSentenceEnd c = false.

(** [message.content || ''] *)
Definition contentOrEmpty (message : Message.t) : jsstring :=
  match Message.content message with
  | Some c => c
  | None => []
  end.

(** A message that step 1 skips: its content normalizes to the empty
    string. *)
Definition isBlankMessage (message : Message.t) : bool :=
  (length (normalizeText (contentOrEmpty message)) =? 0)%nat.

(** What step 3 keeps true of every accumulator: it is not empty, its
    timestamp is that of its first sentence, its role is [client] exactly
    when one of its sentences is, and it holds one embedding for every
    sentence. *)
Definition consistent (a : Accumulator.t) : Prop :=
  match Accumulator.sentences a with
  | [] => False
  | s :: _ =>
      Accumulator.startTimestamp a = Sentence.message_timestamp s
  end /\
  Accumulator.author_role a =
    (if existsb (fun s => isClient (Sentence.author_role s))
                (Accumulator.sentences a)
     then client else team) /\
  length (Accumulator.embeddings a) = length (Accumulator.sentences a).


(** All vectors have the length of the first one. *)
Definition sameDimension (vectors : list vector) : Prop :=
  match vectors with
  | [] => True
  | v0 :: rest => Forall (fun v => length v = length v0) rest
  end.

(* ================================================================== *)
(** * embeddings.js: the provider used in production *)
(* ================================================================== *)

Module Embeddings.

Definition EMBEDDING_DIMENSIONS : nat := 1536.
Definition MAX_BATCH_SIZE : nat := 2048.

(** [`${n}`] for a count. *)
Definition decimal (n : nat) : jsstring :=
  js (NilZero.string_of_uint (Nat.to_uint n)).

(** What awaiting [openaiClient.embeddings.create] gives: a response,
    whose [data] may be missing and whose items may lack an [embedding],
    or one of the exceptions that the [catch] block tells apart.
    [RateLimitError] and [APIConnectionError] are the two subclasses of
    [OpenAI.APIError] that it names; [APIError] stands for the others,
    with [error.status] as it prints; [Thrown] is any other exception. *)
Inductive ApiResult : Type :=
| Response (data : option (list (option vector)))
| RateLimitError (message : jsstring)
| APIConnectionError (message : jsstring)
| APIError (message status : jsstring)
| Thrown (e : error).

(** The client, called with the [input] of the request. *)
Definition Client := list jsstring -> ApiResult.

(** "Filter out empty texts": the texts trimmed, the empty ones
    removed. *)
Definition validTexts (texts : list jsstring) : list jsstring :=
  filter (fun text => (0 <? length text)%nat) (map trim texts).

(** The callback of [response.data.map]: the embedding of item [index],
    which must have the configured dimensions. *)
Definition extractEmbedding (index : nat) (item : option vector)
    : result vector :=
  let found := match item with Some e => length e | None => 0 end in
  match item with
  | Some embedding =>
      if negb (length embedding =? EMBEDDING_DIMENSIONS)%nat
      then Err (ProviderError
                  (js "Unexpected embedding dimensions at index "
                   ++ decimal index ++ js ": " ++ decimal found
                   ++ js ", expected " ++ decimal EMBEDDING_DIMENSIONS))
      else Ok embedding
  | None =>
      Err (ProviderError
             (js "Unexpected embedding dimensions at index "
              ++ decimal index ++ js ": " ++ decimal found
              ++ js ", expected " ++ decimal EMBEDDING_DIMENSIONS))
  end.

(** [items.map((item, index) => ...)] where the callback may throw. *)
Fixpoint mapWithIndex {A B : Type} (f : nat -> A -> result B) (index : nat)
    (items : list A) : result (list B) :=
  match items with
  | [] => Ok []
  | item :: rest =>
      y <- f index item ;;
      ys <- mapWithIndex f (S index) rest ;;
      Ok (y :: ys)
  end.

(** [generateEmbeddingsBatch(texts)] on an array of strings, with the
    client made explicit.  The errors thrown inside [try] are not
    [OpenAI.APIError]s, so the [catch] block throws them again
    unchanged. *)
Definition generateEmbeddingsBatch (client : Client) (texts : list jsstring)
    : result (list vector) :=
  if (length texts =? 0)%nat
  then Err (ProviderError (js "Texts must be a non-empty array"))
  else
    let valid := validTexts texts in
    if (length valid =? 0)%nat
    then Err (ProviderError (js "No valid texts provided"))
    else if (MAX_BATCH_SIZE <? length valid)%nat
    then Err (ProviderError
                (js "Batch size " ++ decimal (length valid)
                 ++ js " exceeds maximum " ++ decimal MAX_BATCH_SIZE))
    else
      match client valid with
      | Response data =>
          let received :=
            match data with Some items => length items | None => 0 end in
          match data with
          | Some items =>
              if negb (length items =? length valid)%nat
              then Err (ProviderError
                          (js "Unexpected response length: "
                           ++ decimal received ++ js ", expected "
                           ++ decimal (length valid)))
              else mapWithIndex extractEmbedding 0 items
          | None =>
              Err (ProviderError
                     (js "Unexpected response length: "
                      ++ decimal received ++ js ", expected "
                      ++ decimal (length valid)))
          end
      | RateLimitError message =>
          Err (ProviderError (js "OpenAI rate limit exceeded: " ++ message))
      | APIConnectionError message =>
          Err (ProviderError (js "OpenAI connection error: " ++ message))
      | APIError message status =>
          Err (ProviderError
                 (js "OpenAI API error: " ++ message ++ js " (status: "
                  ++ status ++ js ")"))
      | Thrown e => Err e
      end.

End Embeddings.

(* ================================================================== *)
(** * More sample inputs *)
(* ================================================================== *)

Module MoreSamples.

Definition blankMessage : Message.t :=
  {| Message.content := Some (js "   ");
     Message.timestamp := 50;
     Message.isTeam := false |}.

Definition missingContent : Message.t :=
  {| Message.content := None;
     Message.timestamp := 51;
     Message.isTeam := true |}.

(** A provider that always fails. *)
Definition failingProvider : Provider :=
  fun _ => Err (ProviderError (js "OpenAI connection error: timeout")).

(** A client that answers every text with the zero vector of the
    configured dimensions. *)
Definition zeroClient : Embeddings.Client :=
  fun input =>
    Embeddings.Response
      (Some (map (fun _ => Some (repeat 0%float Embeddings.EMBEDDING_DIMENSIONS))
                 input)).

(** The chunk of "No problem, happy to help." alone. *)
Definition noProblemChunk : Chunk.t :=
  {| Chunk.content := js "No problem, happy to help.";
     Chunk.author_role := team;
     Chunk.message_timestamp := 101;
     Chunk.metadata :=
       {| Chunk.sentence_count := 1; Chunk.original_length := 26 |} |}.

End MoreSamples.

(* ================================================================== *)
(** * Strings: trimming and replacement *)
(* ================================================================== *)

Section StringFacts.

Implicit Types (s t : jsstring) (c : N).

Lemma trimStart_length s : length (trimStart s) <= length s.
Proof.
  induction s as [|c r IH]; simpl; auto.
  destruct (isWhiteSpace c); simpl; lia.
Qed.

Lemma trimStart_fix_cons c r :
  trimStart (c :: r) = c :: r <-> isWhiteSpace c = false.
Proof.
  simpl. destruct (isWhiteSpace c); split; auto; try discriminate.
  intros H. pose proof (trimStart_length r) as L.
  rewrite H in L. simpl in L. lia.
Qed.

Lemma trimStart_idem s : trimStart (trimStart s) = trimStart s.
Proof.
  induction s as [|c r IH]; simpl; auto.
  destruct (isWhiteSpace c) eqn:E; auto.
  simpl. now rewrite E.
Qed.

Lemma trimEnd_cons c r :
  trimEnd (c :: r) =
  match trimEnd r with
  | [] => if isWhiteSpace c then [] else [c]
  | _ :: _ => c :: trimEnd r
  end.
Proof. simpl. destruct (trimEnd r); reflexivity. Qed.

Lemma trimEnd_idem s : trimEnd (trimEnd s) = trimEnd s.
Proof.
  induction s as [|c r IH]; auto.
  rewrite trimEnd_cons.
  destruct (trimEnd r) as [|d r'] eqn:E.
  - destruct (isWhiteSpace c) eqn:W; simpl; auto. now rewrite W.
  - rewrite trimEnd_cons, IH. reflexivity.
Qed.

Lemma trimStart_fix_trimEnd s :
  trimStart s = s -> trimStart (trimEnd s) = trimEnd s.
Proof.
  destruct s as [|c r]; auto.
  intros W. apply trimStart_fix_cons in W. rewrite trimEnd_cons.
  destruct (trimEnd r); rewrite ?W; simpl; now rewrite W.
Qed.

Lemma trim_trimmed s : trimmed (trim s).
Proof.
  unfold trimmed, trim. split.
  - apply trimStart_fix_trimEnd, trimStart_idem.
  - apply trimEnd_idem.
Qed.

Lemma trimmed_trim s : trimmed s -> trim s = s.
Proof. intros [H1 H2]. unfold trim. now rewrite H1. Qed.

Lemma trim_idem s : trim (trim s) = trim s.
Proof. apply trimmed_trim, trim_trimmed. Qed.

(** [trimEnd] fixes exactly the strings that are empty or end with a code
    unit that is not white space. *)
Lemma trimEnd_fix_cons c r :
  trimEnd (c :: r) = c :: r <->
  (r = [] /\ isWhiteSpace c = false) \/ (r <> [] /\ trimEnd r = r).
Proof.
  rewrite trimEnd_cons. destruct (trimEnd r) as [|d r'] eqn:E.
  - destruct (isWhiteSpace c) eqn:W; split.
    + discriminate.
    + intros [[_ H]|[H1 H2]]; [discriminate | congruence].
    + intros H. injection H as <-. now left.
    + intros [[-> _]|[H1 H2]]; [reflexivity | congruence].
  - split.
    + intros H. injection H as H. right. split; [|exact H].
      intros ->. discriminate.
    + intros [[-> _]|[_ H]]; [discriminate | now rewrite H].
Qed.

Lemma replaceWhitespaceRuns_idem b s :
  replaceWhitespaceRuns b (replaceWhitespaceRuns b s) = replaceWhitespaceRuns b s.
Proof.
  revert b. induction s as [|c r IH]; intros b; simpl; auto.
  destruct (isWhiteSpace c) eqn:W.
  - destruct b; simpl; auto. now rewrite IH.
  - simpl. now rewrite W, IH.
Qed.

Lemma replaceWhitespaceRuns_trimStart s :
  trimStart s = s ->
  trimStart (replaceWhitespaceRuns false s) = replaceWhitespaceRuns false s.
Proof.
  destruct s as [|c r]; auto.
  intros W. apply trimStart_fix_cons in W.
  simpl. rewrite W. simpl. now rewrite W.
Qed.

Lemma replaceWhitespaceRuns_nonempty b s :
  trimEnd s = s -> s <> [] -> replaceWhitespaceRuns b s <> [].
Proof.
  revert b. induction s as [|c r IH]; intros b H N; [congruence|].
  apply trimEnd_fix_cons in H. simpl.
  destruct H as [[-> W]|[Hr H]].
  - rewrite W. discriminate.
  - destruct (isWhiteSpace c); [destruct b|]; try discriminate.
    now apply IH.
Qed.

Lemma replaceWhitespaceRuns_trimEnd b s :
  trimEnd s = s ->
  trimEnd (replaceWhitespaceRuns b s) = replaceWhitespaceRuns b s.
Proof.
  revert b. induction s as [|c r IH]; intros b H; auto.
  apply trimEnd_fix_cons in H. destruct H as [[-> W]|[Hr H]].
  - simpl. rewrite W. simpl. now rewrite W.
  - simpl. destruct (isWhiteSpace c); [destruct b|]; auto;
      apply trimEnd_fix_cons; right; split; auto;
      now apply replaceWhitespaceRuns_nonempty.
Qed.

Lemma replaceWhitespaceRuns_trimmed s :
  trimmed s -> trimmed (replaceWhitespaceRuns false s).
Proof.
  intros [H1 H2]. split.
  - now apply replaceWhitespaceRuns_trimStart.
  - now apply replaceWhitespaceRuns_trimEnd.
Qed.

Lemma isWhiteSpace_NEWLINE : isWhiteSpace NEWLINE = true.
Proof. reflexivity. Qed.

Lemma replaceWhitespaceRuns_no_newline b s :
  Forall (fun c => c <> NEWLINE) (replaceWhitespaceRuns b s).
Proof.
  revert b. induction s as [|c r IH]; intros b; simpl; auto.
  destruct (isWhiteSpace c) eqn:W.
  - destruct b; auto. constructor; auto. discriminate.
  - constructor; auto. intros ->. now rewrite isWhiteSpace_NEWLINE in W.
Qed.

Lemma replaceNewlineRuns_no_newline s :
  Forall (fun c => c <> NEWLINE) s -> replaceNewlineRuns 0 s = s.
Proof.
  induction 1 as [|c r Hc Hr IH]; simpl; auto.
  apply N.eqb_neq in Hc. now rewrite Hc, IH.
Qed.

End StringFacts.

(** [normalizeText] is: trim, then replace the runs of white space.  The
    replacement of newline runs and the second trim never change
    anything. *)
Lemma normalizeText_eq text :
  normalizeText text = replaceWhitespaceRuns false (trim text).
Proof.
  destruct text as [|c r]; [reflexivity|].
  unfold normalizeText.
  rewrite replaceNewlineRuns_no_newline
    by apply replaceWhitespaceRuns_no_newline.
  apply trimmed_trim, replaceWhitespaceRuns_trimmed, trim_trimmed.
Qed.

Lemma normalizeText_trimmed text : trimmed (normalizeText text).
Proof.
  rewrite normalizeText_eq.
  apply replaceWhitespaceRuns_trimmed, trim_trimmed.
Qed.

Lemma normalizeText_no_newline text :
  Forall (fun c => c <> NEWLINE) (normalizeText text).
Proof. rewrite normalizeText_eq. apply replaceWhitespaceRuns_no_newline. Qed.

(* ================================================================== *)
(** * Properties of normalizeText *)
(* ================================================================== *)

(** C9. Normalization is idempotent: for every string [x],
    [normalizeText (normalizeText x)] is [normalizeText x]. *)
Theorem normalizeText_idempotent (x : jsstring) :
  normalizeText (normalizeText x) = normalizeText x.
Proof.
  rewrite (normalizeText_eq (normalizeText x)).
  rewrite (trimmed_trim _ (normalizeText_trimmed x)).
  rewrite normalizeText_eq.
  apply replaceWhitespaceRuns_idem.
Qed.

(** C7. On the input [a\n\n\nb] the run of three newlines is not collapsed
    to two newlines: [normalizeText] returns [a b].  The replacement of
    white-space runs has already turned the run into one space when the
    newline replacement is applied, so the latter never matches, and no
    result of [normalizeText] contains a newline at all. *)
Theorem normalizeText_three_newlines :
  normalizeText (js "a" ++ [NEWLINE; NEWLINE; NEWLINE] ++ js "b") = js "a b" /\
  forall text, ~ In NEWLINE (normalizeText text).
Proof.
  split; [reflexivity|].
  intros text H.
  pose proof (normalizeText_no_newline text) as F.
  rewrite Forall_forall in F. now apply (F NEWLINE H).
Qed.

(* ================================================================== *)
(** * Facts about the chunker *)
(* ================================================================== *)

Section ChunkerFacts.

Variables (threshold : float) (minLength maxLength : Z).

Lemma emitted_cons a accs :
  emitted minLength maxLength (a :: accs) =
  pushFinalized [] a minLength maxLength ++ emitted minLength maxLength accs.
Proof.
  unfold emitted, pushFinalized. simpl.
  now destruct (finalizeChunk a minLength maxLength).
Qed.

Lemma pushFinalized_app chunks a :
  pushFinalized chunks a minLength maxLength =
  chunks ++ pushFinalized [] a minLength maxLength.
Proof.
  unfold pushFinalized.
  destruct (finalizeChunk a minLength maxLength); simpl; auto.
  now rewrite app_nil_r.
Qed.

(** The result of the loop followed by the last finalization is the
    finalization of the accumulators, in order. *)
Lemma walk_accumulate rest :
  forall prev chunks cur,
    (st <- walk threshold minLength maxLength prev rest chunks cur ;;
     Ok (pushFinalized (fst st) (snd st) minLength maxLength))
    = (accs <- accumulate threshold prev rest cur ;;
       Ok (chunks ++ emitted minLength maxLength accs)).
Proof.
  induction rest as [|[s e] rest' IH]; intros prev chunks cur.
  - cbn [walk accumulate bind fst snd].
    rewrite pushFinalized_app, emitted_cons. unfold emitted. simpl.
    now rewrite app_nil_r.
  - cbn [walk accumulate].
    destruct (cosineSimilarityBatch prev [e]) as [sims|err];
      cbn [bind]; auto.
    destruct (similarEnough threshold sims).
    + apply IH.
    + rewrite IH.
      destruct (accumulate threshold e rest' (startChunk s e));
        cbn [bind]; auto.
      rewrite emitted_cons, (pushFinalized_app chunks), app_assoc.
      reflexivity.
Qed.

(** Every sentence is in exactly one accumulator: the accumulators, put
    end to end, are the sentences in their order. *)
Lemma accumulate_partition rest :
  forall prev cur accs,
    accumulate threshold prev rest cur = Ok accs ->
    concat (map Accumulator.sentences accs) =
    Accumulator.sentences cur ++ map fst rest.
Proof.
  induction rest as [|[s e] rest' IH]; intros prev cur accs H.
  - simpl in H. injection H as <-. simpl. reflexivity.
  - simpl in H.
    destruct (cosineSimilarityBatch prev [e]) as [sims|err]; simpl in H;
      [|discriminate].
    destruct (similarEnough threshold sims).
    + apply IH in H. rewrite H. simpl. now rewrite <- app_assoc.
    + destruct (accumulate threshold e rest' (startChunk s e)) as [accs'|]
        eqn:E; simpl in H; [|discriminate].
      injection H as <-. apply IH in E. simpl. now rewrite E.
Qed.

Lemma accumulate_nonempty rest :
  forall prev cur accs,
    Accumulator.sentences cur <> [] ->
    accumulate threshold prev rest cur = Ok accs ->
    Forall (fun a => Accumulator.sentences a <> []) accs.
Proof.
  induction rest as [|[s e] rest' IH]; intros prev cur accs N H.
  - simpl in H. injection H as <-. auto.
  - simpl in H.
    destruct (cosineSimilarityBatch prev [e]) as [sims|err]; simpl in H;
      [|discriminate].
    destruct (similarEnough threshold sims).
    + apply IH in H; auto. simpl. now destruct (Accumulator.sentences cur).
    + destruct (accumulate threshold e rest' (startChunk s e)) as [accs'|]
        eqn:E; simpl in H; [|discriminate].
      injection H as <-. constructor; auto.
      apply IH in E; auto. discriminate.
Qed.

End ChunkerFacts.

Lemma combine_map_fst {A B : Type} (xs : list A) (ys : list B) :
  length xs = length ys -> map fst (combine xs ys) = xs.
Proof.
  revert ys. induction xs as [|x xs IH]; intros [|y ys] H; simpl in *;
    try discriminate; auto.
  f_equal. apply IH. lia.
Qed.

(** A successful call, seen through its accumulators. *)
Lemma semanticChunk_accumulators config provider messages options chunks :
  semanticChunk config provider messages options = Ok chunks ->
  exists accs,
    concat (map Accumulator.sentences accs) = prepareSentences messages 0 /\
    Forall (fun a => Accumulator.sentences a <> []) accs /\
    chunks = emitted (effectiveMinChunkLength config options)
                     (effectiveMaxChunkLength config options) accs.
Proof.
  unfold semanticChunk.
  destruct (length messages =? 0)%nat eqn:M.
  { intros H. injection H as <-. exists []. simpl.
    apply Nat.eqb_eq in M. destruct messages; [|discriminate]. auto. }
  destruct (prepareSentences messages 0) as [|s0 ss] eqn:S.
  { intros H. injection H as <-. exists []. auto. }
  destruct (provider _) as [embs|]; [|discriminate].
  destruct (negb _) eqn:L; [discriminate|].
  apply negb_false_iff, Nat.eqb_eq in L.
  destruct embs as [|e0 es]; [discriminate|].
  rewrite walk_accumulate.
  destruct (accumulate _ e0 (combine ss es) (startChunk s0 e0)) as [accs|]
    eqn:A; simpl; [|discriminate].
  intros H. injection H as <-. exists accs. repeat split.
  - apply accumulate_partition in A. rewrite A. simpl.
    rewrite combine_map_fst; auto. simpl in L. lia.
  - eapply accumulate_nonempty; eauto. discriminate.
Qed.

Lemma prepareSentences_nil_messages messages :
  prepareSentences messages 0 <> [] -> (length messages =? 0)%nat = false.
Proof. destruct messages; [intros H; now elim H | reflexivity]. Qed.

Lemma mapM_ext {A B : Type} (f g : A -> result B) xs :
  (forall x, f x = g x) -> mapM f xs = mapM g xs.
Proof.
  intros E. induction xs as [|x r IH]; simpl; auto. now rewrite E, IH.
Qed.

(** On a base vector that is not empty the batch function is the
    single-pair function applied to each vector in turn. *)
Lemma cosineSimilarityBatch_pairwise baseVector vectors :
  baseVector <> [] ->
  cosineSimilarityBatch baseVector vectors =
  mapM (cosineSimilarity baseVector) vectors.
Proof.
  intros N. unfold cosineSimilarityBatch. apply mapM_ext. intros vecB.
  unfold cosineSimilarity. rewrite (Nat.eqb_sym (length vecB)).
  destruct (length baseVector =? length vecB)%nat; simpl; auto.
  destruct baseVector; [now elim N | reflexivity].
Qed.

(* ================================================================== *)
(** * Properties of the similarity engine *)
(* ================================================================== *)

(** C5. On the empty base vector the batch function does not fail as the
    single-pair function does: [cosineSimilarityBatch([], [[]])] is [[0]]
    while [cosineSimilarity([], [])] throws 'Vectors must not be
    empty'. *)
Theorem cosineSimilarityBatch_empty_vector :
  cosineSimilarityBatch [] [[]] = Ok [0%float] /\
  cosineSimilarity [] [] = Err VectorsMustNotBeEmpty.
Proof. split; reflexivity. Qed.

(* ================================================================== *)
(** * Properties of the chunker *)
(* ================================================================== *)

(** C1. When the provider is called and returns a number of vectors other
    than the number of sentences, the call fails with the embedding count
    mismatch error; the result carries no chunk. *)
Theorem semanticChunk_embedding_count_mismatch
    config provider messages options embeddings :
  prepareSentences messages 0 <> [] ->
  provider (map Sentence.text (prepareSentences messages 0)) = Ok embeddings ->
  length embeddings <> length (prepareSentences messages 0) ->
  semanticChunk config provider messages options =
  Err (EmbeddingCountMismatch (length embeddings)
                              (length (prepareSentences messages 0))).
Proof.
  intros N P L. unfold semanticChunk.
  rewrite (prepareSentences_nil_messages _ N).
  destruct (prepareSentences messages 0) as [|s0 ss] eqn:S; [now elim N|].
  rewrite P. apply Nat.eqb_neq in L. now rewrite L.
Qed.

(** The provider returns one vector for the two sentences of the scenario. *)
Lemma semanticChunk_embedding_count_mismatch_witness :
  semanticChunk (CONFIG Samples.envUnset)
                (Samples.listProvider [[1%float]])
                [Samples.thanks; Samples.noProblem] noOptions =
  Err (EmbeddingCountMismatch 1 2).
Proof.
  apply (semanticChunk_embedding_count_mismatch
           (CONFIG Samples.envUnset) (Samples.listProvider [[1%float]])
           [Samples.thanks; Samples.noProblem] noOptions [[1%float]]).
  - vm_compute. discriminate.
  - reflexivity.
  - vm_compute. lia.
Defined.

(** C3. Every chunk of a successful call is the finalization of one of
    the accumulators into which the sentences are divided, and when an
    accumulator holds a sentence of role [client] its chunk has role
    [client], whatever the other sentences are. *)
Theorem client_role_dominance config provider messages options chunks :
  semanticChunk config provider messages options = Ok chunks ->
  exists accs,
    concat (map Accumulator.sentences accs) = prepareSentences messages 0 /\
    chunks = emitted (effectiveMinChunkLength config options)
                     (effectiveMaxChunkLength config options) accs /\
    forall a c,
      In a accs ->
      finalizeChunk a (effectiveMinChunkLength config options)
                      (effectiveMaxChunkLength config options) = Some c ->
      (exists s, In s (Accumulator.sentences a) /\
                 Sentence.author_role s = client) ->
      Chunk.author_role c = client.
Proof.
  intros H. destruct (semanticChunk_accumulators _ _ _ _ _ H) as (accs & P & _ & E).
  exists accs. repeat split; auto.
  intros a c _ F (s & Hs & R). unfold finalizeChunk in F.
  destruct (length (Accumulator.sentences a) =? 0)%nat; [discriminate|].
  destruct (_ <? _)%Z; [discriminate|].
  injection F as <-. simpl.
  replace (existsb _ _) with true; auto.
  symmetry. apply existsb_exists. exists s. split; auto. now rewrite R.
Qed.

(** C6. Finalization joins the texts with spaces and tests the length of
    that content, before any truncation, against the minimum: below it
    nothing is emitted; otherwise the chunk is emitted and only then is
    its content cut to the maximum length. *)
Theorem finalizeChunk_min_length_before_truncation a minLength maxLength :
  let content := joinedContent (Accumulator.sentences a) in
  ((Z.of_nat (length content) < minLength)%Z ->
   finalizeChunk a minLength maxLength = None) /\
  (Accumulator.sentences a <> [] ->
   (minLength <= Z.of_nat (length content))%Z ->
   exists c,
     finalizeChunk a minLength maxLength = Some c /\
     Chunk.content c =
       trim (if (maxLength <? Z.of_nat (length content))%Z
             then substring content 0 (Z.to_nat maxLength) ++ ELLIPSIS
             else content) /\
     Chunk.original_length (Chunk.metadata c) = length content).
Proof.
  intros content. unfold finalizeChunk. fold content. split.
  - intros L. apply Z.ltb_lt in L. rewrite L.
    now destruct (length (Accumulator.sentences a) =? 0)%nat.
  - intros N L. apply Z.ltb_ge in L. rewrite L.
    destruct (Accumulator.sentences a) as [|s ss] eqn:S; [now elim N|].
    simpl length. simpl Nat.eqb. cbv iota.
    eexists. split; [reflexivity|]. simpl. auto.
Qed.

(** The scenario of the specification: a client sentence and a team
    sentence in one chunk. *)
Lemma client_role_dominance_witness :
  exists accs,
    concat (map Accumulator.sentences accs) =
    prepareSentences [Samples.thanks; Samples.noProblem] 0 /\
    [Samples.scenarioChunk] =
    emitted (effectiveMinChunkLength (CONFIG Samples.envUnset) noOptions)
            (effectiveMaxChunkLength (CONFIG Samples.envUnset) noOptions)
            accs /\
    forall a c,
      In a accs ->
      finalizeChunk a
        (effectiveMinChunkLength (CONFIG Samples.envUnset) noOptions)
        (effectiveMaxChunkLength (CONFIG Samples.envUnset) noOptions) = Some c ->
      (exists s, In s (Accumulator.sentences a) /\
                 Sentence.author_role s = client) ->
      Chunk.author_role c = client.
Proof.
  apply (client_role_dominance (CONFIG Samples.envUnset)
           (Samples.constantProvider Samples.unitX)
           [Samples.thanks; Samples.noProblem] noOptions
           [Samples.scenarioChunk]).
  vm_compute. reflexivity.
Defined.

(** A content of 5 characters under a minimum of 10, and a content of 25
    characters under a minimum of 20 and a maximum of 5. *)
Lemma finalizeChunk_min_length_before_truncation_witness :
  finalizeChunk Samples.shortAccumulator 10 2000 = None /\
  exists c,
    finalizeChunk Samples.longAccumulator 20 5 = Some c /\
    Chunk.content c = js "Hello..." /\
    Chunk.original_length (Chunk.metadata c) = 25.
Proof.
  split.
  - apply (proj1 (finalizeChunk_min_length_before_truncation
                    Samples.shortAccumulator 10 2000)).
    vm_compute. reflexivity.
  - apply (proj2 (finalizeChunk_min_length_before_truncation
                    Samples.longAccumulator 20 5)).
    + discriminate.
    + vm_compute. intros H. discriminate H.
Defined.

(** The options reach the computation through the three values in force
    only. *)
Lemma semanticChunk_options config provider messages options options' :
  effectiveThreshold config options = effectiveThreshold config options' ->
  effectiveMinChunkLength config options =
    effectiveMinChunkLength config options' ->
  effectiveMaxChunkLength config options =
    effectiveMaxChunkLength config options' ->
  semanticChunk config provider messages options =
  semanticChunk config provider messages options'.
Proof.
  intros T L M. unfold semanticChunk. now rewrite T, L, M.
Qed.

(** C10. A call whose options give [0] for the threshold, for the minimum
    or for the maximum length returns what the same call returns when
    that option is given the configured default instead:
    [CONFIG.SIMILARITY_THRESHOLD] for the threshold, which is the double
    [0.7] unless the environment variable gives a non-zero number (it is
    then that number), [10] for the minimum length and [2000] for the
    maximum length. *)
Theorem zero_options_fall_back_to_defaults
    envThreshold provider messages options :
  let config := CONFIG envThreshold in
  (threshold options = Some 0%float ->
   semanticChunk config provider messages options =
   semanticChunk config provider messages
     {| threshold := Some (SIMILARITY_THRESHOLD config);
        minChunkLength := minChunkLength options;
        maxChunkLength := maxChunkLength options |}) /\
  SIMILARITY_THRESHOLD config =
    (if truthyFloat envThreshold then envThreshold
     else 0x1.6666666666666p-1%float) /\
  (minChunkLength options = Some 0%Z ->
   semanticChunk config provider messages options =
   semanticChunk config provider messages
     {| threshold := threshold options;
        minChunkLength := Some 10%Z;
        maxChunkLength := maxChunkLength options |}) /\
  (maxChunkLength options = Some 0%Z ->
   semanticChunk config provider messages options =
   semanticChunk config provider messages
     {| threshold := threshold options;
        minChunkLength := minChunkLength options;
        maxChunkLength := Some 2000%Z |}).
Proof.
  intros config. split; [|split; [|split]].
  - intros H. apply semanticChunk_options; try reflexivity.
    unfold effectiveThreshold. rewrite H. cbn [threshold].
    unfold orFloat at 2.
    destruct (truthyFloat (SIMILARITY_THRESHOLD config)); reflexivity.
  - reflexivity.
  - intros H. apply semanticChunk_options; try reflexivity.
    unfold effectiveMinChunkLength. rewrite H. reflexivity.
  - intros H. apply semanticChunk_options; try reflexivity.
    unfold effectiveMaxChunkLength. rewrite H. reflexivity.
Qed.

(** Two sentences of similarity [0.6], the environment variable not set:
    a threshold of [0] separates them as the default [0.7] does, and
    lengths of [0] act as [10] and [2000]. *)
Lemma zero_options_fall_back_to_defaults_witness :
  semanticChunk (CONFIG Samples.envUnset)
    (Samples.listProvider [[1; 0]; [3; 4]]%float)
    [Samples.helloWorld; Samples.goodbyeNow] Samples.zeroOptions =
  semanticChunk (CONFIG Samples.envUnset)
    (Samples.listProvider [[1; 0]; [3; 4]]%float)
    [Samples.helloWorld; Samples.goodbyeNow]
    {| threshold := Some 0x1.6666666666666p-1%float;
       minChunkLength := Some 10%Z;
       maxChunkLength := Some 2000%Z |}.
Proof.
  destruct (zero_options_fall_back_to_defaults Samples.envUnset
              (Samples.listProvider [[1; 0]; [3; 4]]%float)
              [Samples.helloWorld; Samples.goodbyeNow] Samples.zeroOptions)
    as (T & _ & _ & _).
  destruct (zero_options_fall_back_to_defaults Samples.envUnset
              (Samples.listProvider [[1; 0]; [3; 4]]%float)
              [Samples.helloWorld; Samples.goodbyeNow]
              {| threshold := Some 0x1.6666666666666p-1%float;
                 minChunkLength := Some 0%Z;
                 maxChunkLength := Some 0%Z |})
    as (_ & _ & L & _).
  destruct (zero_options_fall_back_to_defaults Samples.envUnset
              (Samples.listProvider [[1; 0]; [3; 4]]%float)
              [Samples.helloWorld; Samples.goodbyeNow]
              {| threshold := Some 0x1.6666666666666p-1%float;
                 minChunkLength := Some 10%Z;
                 maxChunkLength := Some 0%Z |})
    as (_ & _ & _ & M).
  rewrite (T eq_refl). cbn [minChunkLength maxChunkLength Samples.zeroOptions].
  change (SIMILARITY_THRESHOLD (CONFIG Samples.envUnset))
    with 0x1.6666666666666p-1%float.
  rewrite (L eq_refl). cbn [threshold minChunkLength maxChunkLength].
  exact (M eq_refl).
Defined.

(** C10 as stated fails when the environment sets the default threshold:
    with [SEMANTIC_CHUNKING_THRESHOLD=0.5] an explicit threshold of [0] is
    replaced by [0.5], not by [0.7].  Two sentences of similarity [0.6]
    then stay in one chunk, while a threshold of [0.7] separates them. *)
Lemma zero_threshold_env_default_counterexample :
  threshold Samples.zeroOptions = Some 0%float /\
  effectiveThreshold (CONFIG 0.5%float) Samples.zeroOptions = 0.5%float /\
  (0.5 =? 0x1.6666666666666p-1)%float = false /\
  (exists c,
     semanticChunk (CONFIG 0.5%float)
       (Samples.listProvider [[1; 0]; [3; 4]]%float)
       [Samples.helloWorld; Samples.goodbyeNow]
       (Samples.onlyThreshold 0%float) = Ok [c]) /\
  (exists c1 c2,
     semanticChunk (CONFIG 0.5%float)
       (Samples.listProvider [[1; 0]; [3; 4]]%float)
       [Samples.helloWorld; Samples.goodbyeNow]
       (Samples.onlyThreshold 0x1.6666666666666p-1%float) = Ok [c1; c2]).
Proof.
  split; [reflexivity|]. split; [reflexivity|]. split; [reflexivity|].
  split.
  - eexists. vm_compute. reflexivity.
  - eexists. eexists. vm_compute. reflexivity.
Qed.

(* ================================================================== *)
(** * Properties of splitIntoSentences *)
(* ================================================================== *)

Section SplitFacts.

Variable normalized : jsstring.






End SplitFacts.





(* ================================================================== *)
(** * The content of a chunk *)
(* ================================================================== *)

Section ContentFacts.

Implicit Types (s t : jsstring) (c : N).

Lemma trimStart_app s t :
  s <> [] -> trimStart s = s -> trimStart (s ++ t) = s ++ t.
Proof.
  destruct s as [|c r]; [congruence|]. intros _ H.
  apply trimStart_fix_cons in H. simpl. now rewrite H.
Qed.

Lemma trimEnd_app s t :
  t <> [] -> trimEnd t = t -> trimEnd (s ++ t) = s ++ t.
Proof.
  intros N H. induction s as [|c r IH]; auto.
  change ((c :: r) ++ t) with (c :: (r ++ t)).
  apply trimEnd_fix_cons. right. split; auto.
  destruct r; simpl; [exact N | discriminate].
Qed.

Lemma joinSpace_solid parts :
  parts <> [] -> Forall solid parts -> solid (joinSpace parts).
Proof.
  induction parts as [|p rest IH]; [congruence|]. intros _ F.
  inversion F as [|? ? [[Ps Pe] Pn] Fr]; subst.
  destruct rest as [|q rest'].
  { simpl. repeat split; auto. }
  destruct IH as [[Js Je] Jn]; [discriminate | exact Fr |].
  change (joinSpace (p :: q :: rest'))
    with (p ++ SPACE :: joinSpace (q :: rest')).
  repeat split.
  - now apply trimStart_app.
  - apply trimEnd_app; [discriminate|].
    apply trimEnd_fix_cons. right. split; assumption.
  - destruct p; [congruence | discriminate].
Qed.

Lemma substring_0 s n : substring s 0 n = firstn n s.
Proof.
  unfold substring. simpl. rewrite Nat.sub_0_r. simpl.
  destruct (Nat.le_gt_cases n (length s)) as [L|L].
  - now rewrite Nat.min_l.
  - rewrite Nat.min_r by lia. rewrite firstn_all.
    symmetry. apply firstn_all2. lia.
Qed.

Lemma truncated_trimmed s n :
  solid s -> trimmed (substring s 0 n ++ ELLIPSIS).
Proof.
  intros [[Ps Pe] Pn]. rewrite substring_0. split.
  - destruct s as [|c r]; [congruence|].
    destruct n as [|n]; [reflexivity|].
    apply trimStart_fix_cons in Ps. simpl. now rewrite Ps.
  - apply trimEnd_app; [discriminate | reflexivity].
Qed.

End ContentFacts.

Lemma tagSentences_solid message messageSentences :
  forall k,
    Forall (fun s => solid (Sentence.text s))
           (tagSentences message k messageSentences).
Proof.
  induction messageSentences as [|x r IH]; intros k; simpl; auto.
  destruct (0 <? length (trim x))%nat eqn:L; auto.
  constructor; auto. simpl. split; [apply trim_trimmed|].
  apply Nat.ltb_lt in L. destruct (trim x); simpl in *; [lia | discriminate].
Qed.

Lemma prepareSentences_solid messages :
  forall k,
    Forall (fun s => solid (Sentence.text s)) (prepareSentences messages k).
Proof.
  induction messages as [|m r IH]; intros k; simpl; auto.
  destruct (_ =? 0)%nat; auto.
  apply Forall_app. split; auto. apply tagSentences_solid.
Qed.

(** What finalization does to an accumulator of step 3. *)
Lemma finalizeChunk_content a minLength maxLength :
  Accumulator.sentences a <> [] ->
  Forall (fun s => solid (Sentence.text s)) (Accumulator.sentences a) ->
  match finalizeChunk a minLength maxLength with
  | None =>
      (Z.of_nat (length (joinedContent (Accumulator.sentences a)))
       < minLength)%Z
  | Some c =>
      (minLength
       <= Z.of_nat (length (joinedContent (Accumulator.sentences a))))%Z /\
      Chunk.content c = truncatedContent (Accumulator.sentences a) maxLength /\
      Chunk.sentence_count (Chunk.metadata c) =
        length (Accumulator.sentences a)
  end.
Proof.
  intros N F. unfold finalizeChunk.
  destruct (Accumulator.sentences a) as [|s0 ss] eqn:S; [now elim N|].
  simpl length at 1. simpl Nat.eqb. cbv iota.
  destruct (_ <? minLength)%Z eqn:L.
  { now apply Z.ltb_lt in L. }
  apply Z.ltb_ge in L. split; [exact L|]. split; [|reflexivity].
  simpl Chunk.content. unfold truncatedContent.
  assert (J : solid (joinedContent (s0 :: ss))).
  { apply joinSpace_solid; [discriminate|].
    apply Forall_map. exact F. }
  destruct (maxLength <? _)%Z.
  - apply trimmed_trim, truncated_trimmed, J.
  - apply trimmed_trim, J.
Qed.

(** C2. In a successful call the sentences are divided, in order, into
    accumulators that are not empty, each sentence in exactly one.  The
    chunks are the finalizations, in order, of the accumulators whose
    joined content has at least the minimum length; the others yield
    nothing.  The content of a chunk is the joined text of the sentences
    of its accumulator, cut after the maximum length and followed by
    ['...'] when it is longer; its sentence count is that of the
    accumulator. *)
Theorem semanticChunk_coverage config provider messages options chunks :
  semanticChunk config provider messages options = Ok chunks ->
  exists accs,
    concat (map Accumulator.sentences accs) = prepareSentences messages 0 /\
    chunks = emitted (effectiveMinChunkLength config options)
                     (effectiveMaxChunkLength config options) accs /\
    Forall
      (fun a =>
         Accumulator.sentences a <> [] /\
         match finalizeChunk a (effectiveMinChunkLength config options)
                               (effectiveMaxChunkLength config options) with
         | None =>
             (Z.of_nat (length (joinedContent (Accumulator.sentences a)))
              < effectiveMinChunkLength config options)%Z
         | Some c =>
             (effectiveMinChunkLength config options
              <= Z.of_nat (length (joinedContent (Accumulator.sentences a))))%Z /\
             Chunk.content c =
               truncatedContent (Accumulator.sentences a)
                                (effectiveMaxChunkLength config options) /\
             Chunk.sentence_count (Chunk.metadata c) =
               length (Accumulator.sentences a)
         end) accs.
Proof.
  intros H.
  destruct (semanticChunk_accumulators _ _ _ _ _ H) as (accs & P & N & E).
  exists accs. split; [exact P|]. split; [exact E|].
  assert (S : Forall (Forall (fun s => solid (Sentence.text s)))
                     (map Accumulator.sentences accs)).
  { apply Forall_concat. rewrite P. apply prepareSentences_solid. }
  rewrite Forall_map in S.
  rewrite Forall_forall in *. intros a Ha. split; [now apply N|].
  apply finalizeChunk_content; [now apply N | now apply S].
Qed.

(** Two sentences in one accumulator whose content is cut after 5 characters. *)
Lemma semanticChunk_coverage_witness :
  exists accs,
    concat (map Accumulator.sentences accs) =
    prepareSentences [Samples.helloWorld; Samples.goodbyeNow] 0 /\
    [Samples.truncatedChunk] =
    emitted (effectiveMinChunkLength (CONFIG Samples.envUnset)
                                     Samples.truncatingOptions)
            (effectiveMaxChunkLength (CONFIG Samples.envUnset)
                                     Samples.truncatingOptions) accs /\
    Forall
      (fun a =>
         Accumulator.sentences a <> [] /\
         match finalizeChunk a
                 (effectiveMinChunkLength (CONFIG Samples.envUnset)
                                          Samples.truncatingOptions)
                 (effectiveMaxChunkLength (CONFIG Samples.envUnset)
                                          Samples.truncatingOptions) with
         | None =>
             (Z.of_nat (length (joinedContent (Accumulator.sentences a)))
              < effectiveMinChunkLength (CONFIG Samples.envUnset)
                                        Samples.truncatingOptions)%Z
         | Some c =>
             (effectiveMinChunkLength (CONFIG Samples.envUnset)
                                      Samples.truncatingOptions
              <= Z.of_nat (length (joinedContent (Accumulator.sentences a))))%Z /\
             Chunk.content c =
               truncatedContent (Accumulator.sentences a)
                 (effectiveMaxChunkLength (CONFIG Samples.envUnset)
                                          Samples.truncatingOptions) /\
             Chunk.sentence_count (Chunk.metadata c) =
               length (Accumulator.sentences a)
         end) accs.
Proof.
  apply (semanticChunk_coverage (CONFIG Samples.envUnset)
           (Samples.constantProvider Samples.unitX)
           [Samples.helloWorld; Samples.goodbyeNow]
           Samples.truncatingOptions [Samples.truncatedChunk]).
  vm_compute. reflexivity.
Defined.

(** C2 as stated fails when a chunk is truncated.  The two sentences
    below share one accumulator, which is kept: one chunk is emitted and
    it counts 2 sentences.  Its content is cut after 5 characters, so the
    second sentence is in the content of no chunk. *)
Lemma truncated_sentence_counterexample :
  map Sentence.text
      (prepareSentences [Samples.helloWorld; Samples.goodbyeNow] 0) =
    [js "Hello world."; js "Goodbye now."] /\
  semanticChunk (CONFIG Samples.envUnset)
    (Samples.constantProvider Samples.unitX)
    [Samples.helloWorld; Samples.goodbyeNow] Samples.truncatingOptions =
    Ok [Samples.truncatedChunk] /\
  Chunk.sentence_count (Chunk.metadata Samples.truncatedChunk) = 2 /\
  includes (Chunk.content Samples.truncatedChunk) (js "Goodbye now.") = false.
Proof.
  split; [reflexivity|]. split; [vm_compute; reflexivity|].
  split; reflexivity.
Qed.

(* ================================================================== *)
(** * Identical embeddings *)
(* ================================================================== *)





(* ================================================================== *)
(** * More about normalizeText *)
(* ================================================================== *)

Section NormalFormFacts.

Implicit Types (s t : jsstring) (c : N) (b : bool).

Lemma replaceWhitespaceRuns_spaced s :
  forall b,
    trimEnd s = s -> s <> [] ->
    spaced b (replaceWhitespaceRuns b s) = true.
Proof.
  induction s as [|c r IH]; intros b E N; [congruence|].
  apply trimEnd_fix_cons in E. destruct E as [[-> W]|[Nr Er]].
  - simpl. rewrite W. simpl. now rewrite W.
  - simpl. destruct (isWhiteSpace c) eqn:W.
    + destruct b; [now apply IH|].
      simpl. rewrite IH by assumption. reflexivity.
    + simpl. rewrite W. now apply IH.
Qed.

Lemma replaceWhitespaceRuns_start s :
  trimStart s = s ->
  replaceWhitespaceRuns false s = replaceWhitespaceRuns true s.
Proof.
  destruct s as [|c r]; auto. intros W.
  apply trimStart_fix_cons in W. simpl. now rewrite W.
Qed.

Lemma replaceWhitespaceRuns_nil s :
  trimStart s = s -> replaceWhitespaceRuns false s = [] -> s = [].
Proof.
  destruct s as [|c r]; auto. intros W.
  apply trimStart_fix_cons in W. simpl. rewrite W. discriminate.
Qed.

(** A normalized text is empty or has the shape [spaced]. *)
Lemma normalizeForSplit_spaced text :
  normalizeForSplit text = [] \/ spaced true (normalizeForSplit text) = true.
Proof.
  unfold normalizeForSplit.
  destruct (trim_trimmed text) as [S E].
  destruct (trim text) as [|c r] eqn:T; [now left|]. right.
  rewrite replaceWhitespaceRuns_start by exact S.
  apply replaceWhitespaceRuns_spaced; [exact E | discriminate].
Qed.

Lemma spaced_space s :
  forall b c,
    spaced b s = true -> In c s -> isWhiteSpace c = true -> c = SPACE.
Proof.
  induction s as [|x r IH]; intros b c S I W; [contradiction|].
  simpl in S. destruct I as [->|I].
  - rewrite W in S. apply andb_prop in S. destruct S as [S _].
    apply andb_prop in S. destruct S as [_ S]. now apply N.eqb_eq in S.
  - destruct (isWhiteSpace x).
    + apply andb_prop in S. destruct S as [_ S]. eapply IH; eauto.
    + eapply IH; eauto.
Qed.

Lemma spaced_adjacent pre :
  forall b c d post,
    spaced b (pre ++ c :: d :: post) = true ->
    isWhiteSpace c = true -> isWhiteSpace d = false.
Proof.
  induction pre as [|x pre IH]; intros b c d post S W.
  - simpl in S. rewrite W in S.
    apply andb_prop in S. destruct S as [_ S].
    destruct (isWhiteSpace d); [discriminate | reflexivity].
  - simpl in S. destruct (isWhiteSpace x).
    + apply andb_prop in S. destruct S as [_ S]. eapply IH; eauto.
    + eapply IH; eauto.
Qed.

Lemma trimStart_filter s :
  filter (fun c => negb (isWhiteSpace c)) (trimStart s) =
  filter (fun c => negb (isWhiteSpace c)) s.
Proof.
  induction s as [|c r IH]; simpl; auto.
  destruct (isWhiteSpace c) eqn:W; simpl; auto. now rewrite W.
Qed.

Lemma trimEnd_filter s :
  filter (fun c => negb (isWhiteSpace c)) (trimEnd s) =
  filter (fun c => negb (isWhiteSpace c)) s.
Proof.
  induction s as [|c r IH]; auto.
  rewrite trimEnd_cons. simpl filter at 2. rewrite <- IH.
  destruct (trimEnd r) as [|d r'].
  - destruct (isWhiteSpace c) eqn:W; simpl; now rewrite ?W.
  - reflexivity.
Qed.

Lemma replaceWhitespaceRuns_filter s :
  forall b,
    filter (fun c => negb (isWhiteSpace c)) (replaceWhitespaceRuns b s) =
    filter (fun c => negb (isWhiteSpace c)) s.
Proof.
  induction s as [|c r IH]; intros b; simpl; auto.
  destruct (isWhiteSpace c) eqn:W; simpl.
  - destruct b; simpl; apply IH.
  - rewrite W. simpl. now rewrite IH.
Qed.

Lemma trimStart_blank s :
  Forall (fun c => isWhiteSpace c = true) s -> trimStart s = [].
Proof. induction 1 as [|c r W _ IH]; simpl; auto. now rewrite W. Qed.

Lemma filter_not_whitespace_nil s :
  filter (fun c => negb (isWhiteSpace c)) s = [] ->
  Forall (fun c => isWhiteSpace c = true) s.
Proof.
  induction s as [|c r IH]; simpl; auto.
  destruct (isWhiteSpace c) eqn:W; simpl; [auto | discriminate].
Qed.

End NormalFormFacts.

Lemma normalizeText_filter text :
  filter (fun c => negb (isWhiteSpace c)) (normalizeText text) =
  filter (fun c => negb (isWhiteSpace c)) text.
Proof.
  rewrite normalizeText_eq, replaceWhitespaceRuns_filter.
  unfold trim. now rewrite trimEnd_filter, trimStart_filter.
Qed.

(** [normalizeText] keeps every character that is not white space, in
    order, and adds none. *)
Theorem normalizeText_keeps_characters text :
  filter (fun c => negb (isWhiteSpace c)) (normalizeText text) =
  filter (fun c => negb (isWhiteSpace c)) text.
Proof. exact (normalizeText_filter text). Qed.

Lemma normalizeText_nil_iff text :
  normalizeText text = [] <-> Forall (fun c => isWhiteSpace c = true) text.
Proof.
  split.
  - intros E. apply filter_not_whitespace_nil.
    rewrite <- normalizeText_filter, E. reflexivity.
  - intros B. rewrite normalizeText_eq. unfold trim.
    now rewrite (trimStart_blank _ B).
Qed.

(** [normalizeText] returns the empty string exactly for the texts made
    of white space only. *)
Theorem normalizeText_empty_iff_blank text :
  normalizeText text = [] <-> Forall (fun c => isWhiteSpace c = true) text.
Proof. exact (normalizeText_nil_iff text). Qed.

(** The result of [normalizeText] has white space only as single spaces
    between other characters: it neither starts nor ends with white
    space, every white-space character in it is a space, and no two of
    them are adjacent. *)
Theorem normalizeText_single_spaces text :
  trimmed (normalizeText text) /\
  (forall c, In c (normalizeText text) -> isWhiteSpace c = true -> c = SPACE) /\
  (forall pre c d post,
     normalizeText text = pre ++ c :: d :: post ->
     isWhiteSpace c = true -> isWhiteSpace d = false).
Proof.
  split; [apply normalizeText_trimmed|].
  rewrite normalizeText_eq. fold (normalizeForSplit text).
  destruct (normalizeForSplit_spaced text) as [E|S].
  - rewrite E. split.
    + intros c [].
    + intros pre c d post H. destruct pre; discriminate.
  - split.
    + intros c. now apply spaced_space with (b := true).
    + intros pre c d post H. rewrite H in S.
      now apply spaced_adjacent with (b := true) (pre := pre) (post := post).
Qed.

(** Two words separated by a tab and a newline. *)
Lemma normalizeText_single_spaces_witness :
  isWhiteSpace 103 = false.
Proof.
  apply (proj2 (proj2 (normalizeText_single_spaces
                         (js " a" ++ [9; 10]%N ++ js "go ")))
               [97]%N SPACE 103%N [111]%N);
    reflexivity.
Defined.

(* ================================================================== *)
(** * The guards isTooShort and truncateText *)
(* ================================================================== *)

(** For a positive minimum length, a text is too short exactly when its
    trimmed length is below the minimum: the guard on the empty string
    agrees with the test of the length. *)
Theorem isTooShort_trimmed_length text minLength :
  (0 < minLength)%Z ->
  isTooShort text minLength =
  (Z.of_nat (length (trim text)) <? minLength)%Z.
Proof.
  intros P. destruct text as [|c r]; [|reflexivity].
  simpl. symmetry. now apply Z.ltb_lt.
Qed.

Lemma isTooShort_trimmed_length_witness :
  isTooShort (js "  hi  ") 10 =
  (Z.of_nat (length (trim (js "  hi  "))) <? 10)%Z.
Proof. apply (isTooShort_trimmed_length (js "  hi  ") 10). reflexivity. Defined.

(** When the suffix fits in the maximum length, the result of
    [truncateText] never exceeds the maximum length: a text within the
    limit is returned unchanged, a longer one is cut so that the cut text
    and the suffix have the maximum length together. *)
Theorem truncateText_within_limit text maxLength suffix :
  (Z.of_nat (length suffix) <= maxLength)%Z ->
  (Z.of_nat (length (truncateText text maxLength suffix)) <= maxLength)%Z /\
  ((Z.of_nat (length text) <= maxLength)%Z ->
   truncateText text maxLength suffix = text) /\
  ((maxLength < Z.of_nat (length text))%Z ->
   truncateText text maxLength suffix =
     firstn (Z.to_nat maxLength - length suffix) text ++ suffix /\
   Z.of_nat (length (truncateText text maxLength suffix)) = maxLength).
Proof.
  intros S. unfold truncateText.
  destruct text as [|c r].
  { simpl. split; [lia|]. split; [reflexivity | lia]. }
  set (text := c :: r). rewrite substring_0.
  replace (Z.to_nat (maxLength - Z.of_nat (length suffix)))
    with (Z.to_nat maxLength - length suffix) by lia.
  destruct (Z.of_nat (length text) <=? maxLength)%Z eqn:L.
  - apply Z.leb_le in L. split; [lia|]. split; [reflexivity | lia].
  - apply Z.leb_gt in L.
    assert (E : length (firstn (Z.to_nat maxLength - length suffix) text
                        ++ suffix) = Z.to_nat maxLength).
    { rewrite length_app, length_firstn. lia. }
    split; [rewrite E; lia|]. split; [lia|].
    intros _. split; [reflexivity | rewrite E; lia].
Qed.

Lemma truncateText_within_limit_witness :
  (Z.of_nat (length (truncateText (js "Hello world") 8 (js "..."))) <= 8)%Z /\
  ((Z.of_nat (length (js "Hello world")) <= 8)%Z ->
   truncateText (js "Hello world") 8 (js "...") = js "Hello world") /\
  ((8 < Z.of_nat (length (js "Hello world")))%Z ->
   truncateText (js "Hello world") 8 (js "...") =
     firstn (Z.to_nat 8 - length (js "...")) (js "Hello world") ++ js "..." /\
   Z.of_nat (length (truncateText (js "Hello world") 8 (js "..."))) = 8%Z).
Proof.
  apply (truncateText_within_limit (js "Hello world") 8 (js "...")).
  vm_compute. intros H. discriminate H.
Defined.

(** When the maximum length is not larger than the suffix, a text that is
    not empty and longer than the maximum is replaced by the suffix
    alone, whatever its length. *)
Theorem truncateText_suffix_only text maxLength suffix :
  text <> [] ->
  (maxLength < Z.of_nat (length text))%Z ->
  (maxLength <= Z.of_nat (length suffix))%Z ->
  truncateText text maxLength suffix = suffix.
Proof.
  intros N L S. unfold truncateText.
  destruct text as [|c r]; [now elim N|].
  apply Z.leb_gt in L. rewrite L. rewrite substring_0.
  replace (Z.to_nat (maxLength - Z.of_nat (length suffix))) with 0 by lia.
  reflexivity.
Qed.

Lemma truncateText_suffix_only_witness :
  truncateText (js "abcdef") 2 (js "...") = js "...".
Proof.
  apply (truncateText_suffix_only (js "abcdef") 2 (js "..."));
    [discriminate | reflexivity | vm_compute; intros H; discriminate H].
Defined.

(* ================================================================== *)
(** * More about splitIntoSentences *)
(* ================================================================== *)

(** The result depends on the text through its normalized form only. *)
Lemma splitIntoSentences_normalized text :
  splitIntoSentences text =
  match normalizeForSplit text with
  | [] => []
  | c :: r =>
      match addRemaining (c :: r) (splitLoop (c :: r)) with
      | [] => [c :: r]
      | sentences => sentences
      end
  end.
Proof.
  unfold splitIntoSentences. destruct text as [|x y]; [reflexivity|].
  now destruct (normalizeForSplit (x :: y)).
Qed.

Lemma normalizeForSplit_idem text :
  normalizeForSplit (normalizeForSplit text) = normalizeForSplit text.
Proof.
  unfold normalizeForSplit.
  rewrite (trimmed_trim _ (replaceWhitespaceRuns_trimmed _ (trim_trimmed text))).
  apply replaceWhitespaceRuns_idem.
Qed.

Lemma normalizeForSplit_trimmed text : trimmed (normalizeForSplit text).
Proof. apply replaceWhitespaceRuns_trimmed, trim_trimmed. Qed.

Lemma splitIntoSentences_renormalized text :
  splitIntoSentences (normalizeText text) = splitIntoSentences text.
Proof.
  rewrite !splitIntoSentences_normalized, normalizeText_eq.
  fold (normalizeForSplit text). now rewrite normalizeForSplit_idem.
Qed.

(** Splitting an already normalized text gives the sentences of the
    text itself: the normalization that [semanticChunk] applies before
    splitting changes nothing. *)
Theorem splitIntoSentences_normalizeText text :
  splitIntoSentences (normalizeText text) = splitIntoSentences text.
Proof. exact (splitIntoSentences_renormalized text). Qed.

Section SplitSolid.

Variable normalized : jsstring.

Lemma loopBody_cases (st : list jsstring * nat) m :
  loopBody normalized st m = st \/
  ((2 < length (candidate normalized (snd st) m)) /\
   loopBody normalized st m =
   (fst st ++ [candidate normalized (snd st) m], index m + matchLength m)).
Proof.
  unfold loopBody.
  destruct (2 <? length (candidate normalized (snd st) m))%nat eqn:L;
    [|rewrite andb_false_r; now left].
  apply Nat.ltb_lt in L.
  destruct (_ && _); [|now left].
  destruct (_ && _); [|now right].
  destruct (charAt normalized (index m + 2)) as [c|]; [|now left].
  destruct (isUpper c); [now right | now left].
Qed.

Lemma fold_loopBody_solid ms :
  forall st : list jsstring * nat,
    Forall solid (fst st) ->
    Forall solid (fst (fold_left (loopBody normalized) ms st)).
Proof.
  induction ms as [|m ms IH]; intros st F; simpl; auto.
  apply IH. destruct (loopBody_cases st m) as [->|[L ->]]; auto.
  simpl. apply Forall_app. split; auto. constructor; auto.
  split; [apply trim_trimmed|].
  destruct (candidate normalized (snd st) m); [simpl in L; lia | discriminate].
Qed.

Lemma addRemaining_solid (st : list jsstring * nat) :
  Forall solid (fst st) -> Forall solid (addRemaining normalized st).
Proof.
  intros F. unfold addRemaining.
  destruct (snd st <? length normalized)%nat; auto.
  destruct (0 <? length (trim (substringFrom normalized (snd st))))%nat eqn:L;
    auto.
  apply Forall_app. split; auto. constructor; auto.
  split; [apply trim_trimmed|].
  apply Nat.ltb_lt in L.
  destruct (trim (substringFrom normalized (snd st)));
    [simpl in L; lia | discriminate].
Qed.

End SplitSolid.

Lemma splitIntoSentences_all_solid text :
  Forall solid (splitIntoSentences text).
Proof.
  rewrite splitIntoSentences_normalized.
  pose proof (normalizeForSplit_trimmed text) as T.
  destruct (normalizeForSplit text) as [|c r]; [constructor|].
  pose proof (addRemaining_solid (c :: r) (splitLoop (c :: r))
                (fold_loopBody_solid (c :: r) _ ([], 0) (Forall_nil _))) as F.
  destruct (addRemaining (c :: r) (splitLoop (c :: r))); auto.
  constructor; auto. split; [exact T | discriminate].
Qed.

(** Every sentence returned is trimmed and not empty. *)
Theorem splitIntoSentences_solid text :
  Forall solid (splitIntoSentences text).
Proof. exact (splitIntoSentences_all_solid text). Qed.

Lemma splitIntoSentences_nil_iff text :
  splitIntoSentences text = [] <->
  Forall (fun c => isWhiteSpace c = true) text.
Proof.
  rewrite <- normalizeText_nil_iff, normalizeText_eq.
  fold (normalizeForSplit text). rewrite splitIntoSentences_normalized.
  destruct (normalizeForSplit text) as [|c r]; [tauto|].
  destruct (addRemaining (c :: r) (splitLoop (c :: r)));
    split; discriminate.
Qed.


Section NoSentenceEnd.

Lemma execAll_plain s :
  Forall plain s -> forall idx skip, execAll s idx skip = [].
Proof.
  induction 1 as [|c r P _ IH]; intros idx skip; simpl; auto.
  destruct skip; auto. unfold plain in P. now rewrite P.
Qed.

Lemma trimStart_plain s : Forall plain s -> Forall plain (trimStart s).
Proof.
  induction 1 as [|c r P F IH]; simpl; auto.
  destruct (isWhiteSpace c); auto.
Qed.

Lemma trimEnd_plain s : Forall plain s -> Forall plain (trimEnd s).
Proof.
  induction 1 as [|c r P F IH]; auto.
  rewrite trimEnd_cons. destruct (trimEnd r); auto.
  destruct (isWhiteSpace c); auto.
Qed.

Lemma replaceWhitespaceRuns_plain s :
  Forall plain s -> forall b, Forall plain (replaceWhitespaceRuns b s).
Proof.
  induction 1 as [|c r P F IH]; intros b; simpl; auto.
  destruct (isWhiteSpace c); auto.
  destruct b; auto. constructor; auto. reflexivity.
Qed.

Lemma normalizeForSplit_plain text :
  Forall plain text -> Forall plain (normalizeForSplit text).
Proof.
  intros F. apply replaceWhitespaceRuns_plain, trimEnd_plain, trimStart_plain, F.
Qed.

End NoSentenceEnd.

Lemma substringFrom_0 s : substringFrom s 0 = s.
Proof. unfold substringFrom. rewrite substring_0. apply firstn_all. Qed.

(** A text without [.], [!] and [?] that is not blank is returned whole,
    normalized, as its only sentence. *)
Theorem splitIntoSentences_no_punctuation text :
  Forall (fun c => isSentenceEnd c = false) text ->
  normalizeForSplit text <> [] ->
  splitIntoSentences text = [normalizeForSplit text].
Proof.
  intros P N. rewrite splitIntoSentences_normalized.
  pose proof (normalizeForSplit_plain text P) as Q.
  pose proof (normalizeForSplit_trimmed text) as T.
  destruct (normalizeForSplit text) as [|c r] eqn:E; [now elim N|].
  unfold splitLoop. rewrite (execAll_plain _ Q). simpl fold_left.
  unfold addRemaining. cbn [fst snd].
  rewrite substringFrom_0, (trimmed_trim _ T). reflexivity.
Qed.

Lemma splitIntoSentences_no_punctuation_witness :
  splitIntoSentences (js "  ok   thanks ") = [js "ok thanks"].
Proof.
  apply (splitIntoSentences_no_punctuation (js "  ok   thanks ")).
  - vm_compute. repeat constructor.
  - vm_compute. discriminate.
Defined.

(* ================================================================== *)
(** * Splitting loses no text *)
(* ================================================================== *)

Lemma isSentenceEnd_not_whitespace c :
  isSentenceEnd c = true -> isWhiteSpace c = false.
Proof.
  unfold isSentenceEnd. intros H.
  apply orb_prop in H. destruct H as [H|H];
    [apply orb_prop in H; destruct H as [H|H]|];
    apply N.eqb_eq in H; subst c; reflexivity.
Qed.

Lemma joinSpace_snoc ss x :
  joinSpace (ss ++ [x]) =
  match ss with
  | [] => []
  | _ :: _ => joinSpace ss ++ [SPACE]
  end ++ x.
Proof.
  induction ss as [|p rest IH]; [reflexivity|].
  destruct rest as [|q rest'].
  - simpl. now rewrite <- app_assoc.
  - change (joinSpace ((p :: q :: rest') ++ [x]))
      with (p ++ SPACE :: joinSpace ((q :: rest') ++ [x])).
    rewrite IH.
    change (joinSpace (p :: q :: rest'))
      with (p ++ SPACE :: joinSpace (q :: rest')).
    now rewrite <- !app_assoc.
Qed.

Lemma substring_middle (pre mid post : jsstring) :
  substring (pre ++ mid ++ post) (length pre) (length pre + length mid) = mid.
Proof.
  unfold substring. rewrite !length_app.
  rewrite !Nat.min_l by lia. rewrite Nat.max_r by lia.
  replace (length pre + length mid - length pre) with (length mid) by lia.
  rewrite skipn_app, Nat.sub_diag, skipn_all. simpl.
  rewrite firstn_app, Nat.sub_diag, firstn_all. simpl.
  now rewrite app_nil_r.
Qed.

Lemma substringFrom_suffix (pre rest : jsstring) :
  substringFrom (pre ++ rest) (length pre) = rest.
Proof.
  unfold substringFrom.
  pose proof (substring_middle pre rest []) as H.
  rewrite app_nil_r in H. rewrite length_app. exact H.
Qed.

Lemma snoc_trimmed (cur : jsstring) c :
  (cur <> [] -> trimStart cur = cur) ->
  isWhiteSpace c = false ->
  trimmed (cur ++ [c]).
Proof.
  intros H W. split.
  - destruct cur as [|x y].
    + simpl. now rewrite W.
    + apply trimStart_app; [discriminate | apply H; discriminate].
  - apply trimEnd_app; [discriminate|]. simpl. now rewrite W.
Qed.

Section Lossless.

(** The normalized text [n]; at each point of the scan it is
    [done ++ cur ++ s]: [done] is the text of the sentences emitted so
    far, [cur] the text read since the last one, [s] what is left. *)
Variable n : jsstring.

Lemma lossless_end ss (cur : jsstring) :
  n = doneText ss ++ cur ->
  trimmed cur -> cur <> [] ->
  finished n (ss, length (doneText ss)).
Proof.
  intros E T N. unfold finished, addRemaining. cbn [fst snd]. cbv zeta.
  assert (R : trim (substringFrom n (length (doneText ss))) = cur).
  { rewrite E, substringFrom_suffix. now apply trimmed_trim. }
  replace (length (doneText ss) <? length n)%nat with true.
  2:{ symmetry. apply Nat.ltb_lt. rewrite E, length_app.
      destruct cur; [congruence | simpl; lia]. }
  rewrite R.
  replace (0 <? length cur)%nat with true
    by (destruct cur; [congruence | reflexivity]).
  split; [destruct ss; discriminate|].
  rewrite joinSpace_snoc. fold (doneText ss). now rewrite E.
Qed.

Lemma lossless_pushed_end ss (x : jsstring) :
  n = doneText ss ++ x ->
  finished n (ss ++ [x], length n).
Proof.
  intros E. unfold finished, addRemaining. cbn [fst snd].
  rewrite Nat.ltb_irrefl.
  split; [destruct ss; discriminate|].
  rewrite joinSpace_snoc. fold (doneText ss). now rewrite E.
Qed.

Lemma lossless_scan k :
  forall (s cur : jsstring) ss b,
    length s <= k ->
    n = doneText ss ++ cur ++ s ->
    spaced b s = true ->
    (cur = [] -> b = true) ->
    (cur <> [] -> trimStart cur = cur) ->
    (b = false -> trimEnd cur = cur) ->
    finished n (fold_left (loopBody n)
                (execAll s (length (doneText ss) + length cur) 0)
                (ss, length (doneText ss))).
Proof.
  induction k as [|k IH]; intros s cur ss b L E Sp B H T.
  { destruct s; [|simpl in L; lia]. simpl in Sp.
    destruct b; [discriminate|]. rewrite app_nil_r in E.
    simpl. apply lossless_end with (cur := cur); auto.
    - split; auto. apply H. intros ->. now discriminate B.
    - intros ->. now discriminate B. }
  destruct s as [|c r].
  { simpl in Sp. destruct b; [discriminate|]. rewrite app_nil_r in E.
    simpl. apply lossless_end with (cur := cur); auto.
    - split; auto. apply H. intros ->. now discriminate B.
    - intros ->. now discriminate B. }
  simpl in L.
  (* the text read so far, extended by [c] *)
  assert (Wc : cur = [] -> isWhiteSpace c = false).
  { intros C. rewrite (B C) in Sp. simpl in Sp.
    destruct (isWhiteSpace c); [discriminate | reflexivity]. }
  assert (Hc : cur ++ [c] <> [] -> trimStart (cur ++ [c]) = cur ++ [c]).
  { intros _. destruct cur as [|x y].
    - simpl. now rewrite Wc.
    - apply trimStart_app; [discriminate | apply H; discriminate]. }
  assert (Next : spaced (isWhiteSpace c) r = true ->
                 finished n (fold_left (loopBody n)
                   (execAll r (length (doneText ss) + length (cur ++ [c])) 0)
                   (ss, length (doneText ss)))).
  { intros S'. apply IH with (b := isWhiteSpace c); auto; try lia.
    - rewrite E, <- !app_assoc. reflexivity.
    - intros C. destruct cur; discriminate.
    - intros W. apply trimEnd_app; [discriminate|]. simpl. now rewrite W. }
  assert (Sr : spaced (isWhiteSpace c) r = true).
  { simpl in Sp. destruct (isWhiteSpace c); auto.
    apply andb_prop in Sp. tauto. }
  rewrite length_app in Next. simpl length in Next.
  replace (length (doneText ss) + (length cur + 1))
    with (S (length (doneText ss) + length cur)) in Next by lia.
  destruct (isSentenceEnd c) eqn:P; [|simpl; rewrite P; auto].
  pose proof (isSentenceEnd_not_whitespace c P) as W.
  pose proof (snoc_trimmed cur c H W) as X.
  set (idx := length (doneText ss) + length cur) in *.
  assert (Cand : forall len,
             candidate n (length (doneText ss))
                       {| index := idx; matchLength := len |} = cur ++ [c]).
  { intros len. unfold candidate. cbn [index].
    replace (idx + 1) with (length (doneText ss) + length (cur ++ [c]))
      by (rewrite length_app; simpl; lia).
    rewrite E.
    replace (doneText ss ++ cur ++ c :: r)
      with (doneText ss ++ (cur ++ [c]) ++ r)
      by (now rewrite <- !app_assoc).
    rewrite substring_middle. now apply trimmed_trim. }
  destruct r as [|d r'].
  - (* the match at the end of the text *)
    simpl. rewrite P. simpl.
    destruct (loopBody_cases n (ss, length (doneText ss))
                {| index := idx; matchLength := 1 |}) as [->|[_ ->]].
    + apply lossless_end with (cur := cur ++ [c]); auto.
      destruct cur; discriminate.
    + cbn [fst snd index matchLength]. rewrite Cand.
      replace (idx + 1) with (length n)
        by (rewrite E, !length_app; simpl; lia).
      apply lossless_pushed_end. exact E.
  - rewrite W in Sr. simpl in L.
    destruct (isWhiteSpace d) eqn:Wd.
    + (* the match followed by a space *)
      simpl in Sr. rewrite Wd in Sr. simpl in Sr.
      apply andb_prop in Sr. destruct Sr as [Sd Sr].
      apply N.eqb_eq in Sd. subst d.
      assert (C0 : countWhitespace r' = 0).
      { destruct r' as [|e r'']; [reflexivity|]. simpl in Sr. simpl.
        destruct (isWhiteSpace e); [discriminate | reflexivity]. }
      cbn [execAll]. rewrite P, Wd. cbn [countWhitespace]. rewrite Wd, C0.
      cbn [fold_left].
      destruct (loopBody_cases n (ss, length (doneText ss))
                  {| index := idx; matchLength := 1 + 1 |}) as [->|[_ ->]].
      * (* not emitted: the sentence goes on *)
        replace (S (S idx))
          with (length (doneText ss) + length (cur ++ [c; SPACE]))
          by (rewrite length_app; simpl; lia).
        apply IH with (b := true); auto; try lia; try discriminate.
        -- rewrite E, <- !app_assoc. reflexivity.
        -- intros _. destruct cur as [|x y].
           ++ simpl. now rewrite W.
           ++ apply trimStart_app; [discriminate | apply H; discriminate].
      * (* emitted: the next sentence starts after the space *)
        cbn [fst snd index matchLength]. rewrite Cand.
        assert (D : doneText (ss ++ [cur ++ [c]]) =
                    doneText ss ++ (cur ++ [c]) ++ [SPACE]).
        { unfold doneText at 1.
          destruct (ss ++ [cur ++ [c]]) eqn:Z;
            [destruct ss; discriminate|].
          rewrite <- Z, joinSpace_snoc. fold (doneText ss).
          now rewrite <- !app_assoc. }
        replace (idx + (1 + 1)) with (length (doneText (ss ++ [cur ++ [c]])))
          by (rewrite D, !length_app; simpl; lia).
        replace (S (S idx))
          with (length (doneText (ss ++ [cur ++ [c]])) + length (@nil N))
          by (rewrite D, !length_app; simpl; lia).
        apply IH with (b := true); auto; try lia; try discriminate;
          try congruence.
        rewrite D, E, <- !app_assoc. reflexivity.
    + (* end of sentence mark inside a word: no match *)
      simpl. rewrite P, Wd. apply Next. rewrite W. exact Sr.
Qed.

End Lossless.

(** Splitting loses no text: the sentences returned, joined by single
    spaces, are the normalized text. *)
Theorem splitIntoSentences_join text :
  joinSpace (splitIntoSentences text) = normalizeForSplit text.
Proof.
  rewrite splitIntoSentences_normalized.
  destruct (normalizeForSplit_spaced text) as [E|S]; [now rewrite E|].
  destruct (normalizeForSplit text) as [|c r] eqn:N; [reflexivity|].
  assert (FJ : addRemaining (c :: r) (splitLoop (c :: r)) <> [] /\
               joinSpace (addRemaining (c :: r) (splitLoop (c :: r))) = c :: r).
  { apply (lossless_scan (c :: r) (length (c :: r)) (c :: r) [] [] true);
      auto; congruence. }
  destruct FJ as [F J].
  destruct (addRemaining (c :: r) (splitLoop (c :: r))); [now elim F|].
  exact J.
Qed.

(* ================================================================== *)
(** * Step 1 of the chunker: the sentences *)
(* ================================================================== *)

Lemma tagSentences_index message ss :
  forall k,
    map Sentence.message_index (tagSentences message k ss) =
    seq k (length (tagSentences message k ss)).
Proof.
  induction ss as [|x r IH]; intros k; simpl; auto.
  destruct (0 <? length (trim x))%nat; simpl; auto. now rewrite IH.
Qed.

Lemma prepareSentences_index messages :
  forall k,
    map Sentence.message_index (prepareSentences messages k) =
    seq k (length (prepareSentences messages k)).
Proof.
  induction messages as [|m r IH]; intros k; simpl; auto.
  destruct (_ =? 0)%nat; auto.
  rewrite map_app, length_app, seq_app, tagSentences_index, IH.
  reflexivity.
Qed.

(** The sentences are numbered from [0] in their order, without gap:
    [message_index] counts sentences, not messages. *)
Theorem prepareSentences_message_index messages :
  map Sentence.message_index (prepareSentences messages 0) =
  seq 0 (length (prepareSentences messages 0)).
Proof. apply prepareSentences_index. Qed.

Lemma tagSentences_texts message ss :
  Forall solid ss ->
  forall k, map Sentence.text (tagSentences message k ss) = ss.
Proof.
  induction 1 as [|x r [T N] _ IH]; intros k; simpl; auto.
  rewrite (trimmed_trim _ T).
  destruct x as [|c y]; [congruence|]. simpl. now rewrite IH.
Qed.

Lemma prepareSentences_text_list messages k :
  map Sentence.text (prepareSentences messages k) =
  flat_map (fun m => splitIntoSentences (contentOrEmpty m)) messages.
Proof.
  revert k. induction messages as [|m r IH]; intros k; simpl; auto.
  fold (contentOrEmpty m).
  rewrite <- (splitIntoSentences_renormalized (contentOrEmpty m)).
  destruct (length (normalizeText (contentOrEmpty m)) =? 0)%nat eqn:L.
  - apply Nat.eqb_eq in L.
    destruct (normalizeText (contentOrEmpty m)); [|discriminate].
    simpl. apply IH.
  - rewrite map_app, IH.
    now rewrite (tagSentences_texts _ _ (splitIntoSentences_all_solid _)).
Qed.

(** The texts sent to the embedding provider are the sentences of each
    message, message after message: no sentence is dropped or changed
    between [splitIntoSentences] and the provider. *)
Theorem prepareSentences_texts messages k :
  map Sentence.text (prepareSentences messages k) =
  flat_map (fun m => splitIntoSentences (contentOrEmpty m)) messages.
Proof. exact (prepareSentences_text_list messages k). Qed.

Lemma prepareSentences_filter messages :
  forall k,
    prepareSentences
      (filter (fun m => negb (isBlankMessage m)) messages) k =
    prepareSentences messages k.
Proof.
  induction messages as [|m r IH]; intros k; simpl; auto.
  unfold isBlankMessage at 1. fold (contentOrEmpty m).
  destruct (length (normalizeText (contentOrEmpty m)) =? 0)%nat eqn:L; simpl.
  - apply IH.
  - fold (contentOrEmpty m). rewrite L. now rewrite IH.
Qed.

Lemma semanticChunk_sentences config provider messages options :
  semanticChunk config provider messages options =
  match prepareSentences messages 0 with
  | [] => Ok []
  | sentence0 :: sentences' =>
      match provider (map Sentence.text (sentence0 :: sentences')) with
      | Err e => Err (FailedToGenerateEmbeddings e)
      | Ok embeddings =>
          if negb (length embeddings =? length (sentence0 :: sentences'))%nat
          then Err (EmbeddingCountMismatch (length embeddings)
                      (length (sentence0 :: sentences')))
          else
            match embeddings with
            | [] => Ok []
            | embedding0 :: embeddings' =>
                st <- walk (effectiveThreshold config options)
                        (effectiveMinChunkLength config options)
                        (effectiveMaxChunkLength config options)
                        embedding0 (combine sentences' embeddings')
                        [] (startChunk sentence0 embedding0) ;;
                Ok (pushFinalized (fst st) (snd st)
                      (effectiveMinChunkLength config options)
                      (effectiveMaxChunkLength config options))
            end
      end
  end.
Proof.
  unfold semanticChunk. destruct messages as [|m r]; [reflexivity|].
  cbn [length Nat.eqb]. cbv zeta.
  destruct (prepareSentences (m :: r) 0); reflexivity.
Qed.

(** Messages whose content is missing, empty or white space only do not
    count: removing them from the input changes nothing in the result. *)
Theorem semanticChunk_ignores_blank_messages
    config provider messages options :
  semanticChunk config provider
    (filter (fun m => negb (isBlankMessage m)) messages) options =
  semanticChunk config provider messages options.
Proof.
  rewrite !semanticChunk_sentences. now rewrite prepareSentences_filter.
Qed.

(** When no message has any text the result is the empty list and the
    provider is not consulted: the result is the same for every
    provider. *)
Theorem semanticChunk_no_text config provider messages options :
  Forall (fun m => Forall (fun c => isWhiteSpace c = true)
                          (contentOrEmpty m)) messages ->
  semanticChunk config provider messages options = Ok [].
Proof.
  intros B. rewrite semanticChunk_sentences.
  assert (E : map Sentence.text (prepareSentences messages 0) = []).
  { rewrite prepareSentences_text_list.
    induction B as [|m r Bm _ IH]; simpl; auto.
    apply splitIntoSentences_nil_iff in Bm. now rewrite Bm. }
  destruct (prepareSentences messages 0); [reflexivity | discriminate].
Qed.

Lemma semanticChunk_provider_err config provider messages options e :
  prepareSentences messages 0 <> [] ->
  provider (map Sentence.text (prepareSentences messages 0)) = Err e ->
  semanticChunk config provider messages options =
  Err (FailedToGenerateEmbeddings e).
Proof.
  intros N P. rewrite semanticChunk_sentences.
  destruct (prepareSentences messages 0); [now elim N|]. now rewrite P.
Qed.

(** A failure of the provider fails the call, wrapped as 'Failed to
    generate embeddings for semantic chunking'. *)
Theorem semanticChunk_provider_failure config provider messages options e :
  prepareSentences messages 0 <> [] ->
  provider (map Sentence.text (prepareSentences messages 0)) = Err e ->
  semanticChunk config provider messages options =
  Err (FailedToGenerateEmbeddings e).
Proof. exact (semanticChunk_provider_err config provider messages options e). Qed.

(* ================================================================== *)
(** * Step 3 of the chunker: what the accumulators keep true *)
(* ================================================================== *)

Lemma startChunk_consistent s e : consistent (startChunk s e).
Proof.
  unfold consistent. simpl. repeat split.
  now destruct (Sentence.author_role s).
Qed.

Lemma extendChunk_consistent a s e :
  consistent a -> consistent (extendChunk a s e).
Proof.
  unfold consistent. intros (T & R & L). split; [|split].
  - simpl. destruct (Accumulator.sentences a); [contradiction | exact T].
  - simpl. rewrite R, existsb_app. simpl. rewrite orb_false_r.
    destruct (existsb _ (Accumulator.sentences a)),
      (isClient (Sentence.author_role s)); reflexivity.
  - simpl. rewrite !length_app. simpl. lia.
Qed.

Lemma accumulate_consistent threshold rest :
  forall prev cur accs,
    consistent cur ->
    accumulate threshold prev rest cur = Ok accs ->
    Forall consistent accs.
Proof.
  induction rest as [|[s e] rest' IH]; intros prev cur accs C H.
  - simpl in H. injection H as <-. auto.
  - simpl in H.
    destruct (cosineSimilarityBatch prev [e]) as [sims|err]; simpl in H;
      [|discriminate].
    destruct (similarEnough threshold sims).
    + eapply IH; [|exact H]. now apply extendChunk_consistent.
    + destruct (accumulate threshold e rest' (startChunk s e)) as [accs'|]
        eqn:A; simpl in H; [|discriminate].
      injection H as <-. constructor; auto.
      eapply IH; [|exact A]. apply startChunk_consistent.
Qed.

(** A successful call, seen through its accumulators, with what they
    keep true. *)
Lemma semanticChunk_consistent config provider messages options chunks :
  semanticChunk config provider messages options = Ok chunks ->
  exists accs,
    concat (map Accumulator.sentences accs) = prepareSentences messages 0 /\
    Forall consistent accs /\
    chunks = emitted (effectiveMinChunkLength config options)
                     (effectiveMaxChunkLength config options) accs.
Proof.
  rewrite semanticChunk_sentences.
  destruct (prepareSentences messages 0) as [|s0 ss] eqn:S.
  { intros H. injection H as <-. exists []. auto. }
  destruct (provider _) as [embs|]; [|discriminate].
  destruct (negb _) eqn:L; [discriminate|].
  apply negb_false_iff, Nat.eqb_eq in L.
  destruct embs as [|e0 es]; [discriminate|].
  rewrite walk_accumulate.
  destruct (accumulate _ e0 (combine ss es) (startChunk s0 e0)) as [accs|]
    eqn:A; simpl; [|discriminate].
  intros H. injection H as <-. exists accs. repeat split.
  - apply accumulate_partition in A. rewrite A. simpl.
    rewrite combine_map_fst; auto. simpl in L. lia.
  - eapply accumulate_consistent; [|exact A]. apply startChunk_consistent.
Qed.

Lemma emitted_In minLength maxLength accs c :
  In c (emitted minLength maxLength accs) ->
  exists a, In a accs /\ finalizeChunk a minLength maxLength = Some c.
Proof.
  unfold emitted. rewrite in_flat_map. intros (a & I & H).
  exists a. split; auto.
  destruct (finalizeChunk a minLength maxLength) as [c'|]; [|contradiction].
  destruct H as [->|[]]. reflexivity.
Qed.

Lemma prepareSentences_provenance messages :
  forall k,
    Forall (fun s =>
              In (Sentence.original_message s) messages /\
              Sentence.message_timestamp s =
                Message.timestamp (Sentence.original_message s) /\
              Sentence.author_role s =
                (if Message.isTeam (Sentence.original_message s)
                 then team else client))
           (prepareSentences messages k).
Proof.
  induction messages as [|m r IH]; intros k; simpl; auto.
  assert (R : Forall (fun s =>
              In (Sentence.original_message s) (m :: r) /\
              Sentence.message_timestamp s =
                Message.timestamp (Sentence.original_message s) /\
              Sentence.author_role s =
                (if Message.isTeam (Sentence.original_message s)
                 then team else client))
           (prepareSentences r
              (k + length (tagSentences m k
                     (splitIntoSentences
                        (normalizeText
                           match Message.content m with
                           | Some c => c
                           | None => []
                           end)))))).
  { eapply Forall_impl; [|apply IH]. simpl. intros s (I & T & A).
    repeat split; auto. }
  destruct (_ =? 0)%nat.
  { eapply Forall_impl; [|apply IH]. simpl. intros s (I & T & A).
    repeat split; auto. }
  apply Forall_app. split; [|exact R].
  generalize (splitIntoSentences
                (normalizeText
                   match Message.content m with
                   | Some c => c
                   | None => []
                   end)).
  intros ss. clear R. revert k.
  induction ss as [|x y IHs]; intros k; simpl; auto.
  destruct (0 <? length (trim x))%nat; auto.
Qed.

(** The timestamp of a chunk is the timestamp of the message from which
    the first sentence of its accumulator comes, a message of the
    input. *)
Theorem chunk_timestamp_of_first_sentence
    config provider messages options chunks :
  semanticChunk config provider messages options = Ok chunks ->
  exists accs,
    concat (map Accumulator.sentences accs) = prepareSentences messages 0 /\
    chunks = emitted (effectiveMinChunkLength config options)
                     (effectiveMaxChunkLength config options) accs /\
    forall a c,
      In a accs ->
      finalizeChunk a (effectiveMinChunkLength config options)
                      (effectiveMaxChunkLength config options) = Some c ->
      exists s rest,
        Accumulator.sentences a = s :: rest /\
        In (Sentence.original_message s) messages /\
        Chunk.message_timestamp c =
          Message.timestamp (Sentence.original_message s).
Proof.
  intros H.
  destruct (semanticChunk_consistent _ _ _ _ _ H) as (accs & P & C & E).
  exists accs. split; [exact P|]. split; [exact E|].
  intros a c I F.
  rewrite Forall_forall in C. destruct (C a I) as (T & _ & _).
  destruct (Accumulator.sentences a) as [|s rest] eqn:S; [contradiction|].
  exists s, rest. split; [reflexivity|].
  assert (Is : In s (prepareSentences messages 0)).
  { rewrite <- P. apply in_concat. exists (s :: rest). split.
    - rewrite <- S. now apply in_map.
    - now left. }
  pose proof (prepareSentences_provenance messages 0) as V.
  rewrite Forall_forall in V. destruct (V s Is) as (Im & Ts & _).
  split; [exact Im|].
  unfold finalizeChunk in F.
  destruct (length (Accumulator.sentences a) =? 0)%nat; [discriminate|].
  destruct (_ <? _)%Z; [discriminate|].
  injection F as <-. simpl. now rewrite T, Ts.
Qed.

(** A chunk has role [team] exactly when every sentence of its
    accumulator comes from a team message. *)
Theorem chunk_team_iff_all_team config provider messages options chunks :
  semanticChunk config provider messages options = Ok chunks ->
  exists accs,
    concat (map Accumulator.sentences accs) = prepareSentences messages 0 /\
    chunks = emitted (effectiveMinChunkLength config options)
                     (effectiveMaxChunkLength config options) accs /\
    forall a c,
      In a accs ->
      finalizeChunk a (effectiveMinChunkLength config options)
                      (effectiveMaxChunkLength config options) = Some c ->
      (Chunk.author_role c = team <->
       Forall (fun s => Message.isTeam (Sentence.original_message s) = true)
              (Accumulator.sentences a)).
Proof.
  intros H.
  destruct (semanticChunk_consistent _ _ _ _ _ H) as (accs & P & C & E).
  exists accs. split; [exact P|]. split; [exact E|].
  intros a c I F.
  rewrite Forall_forall in C. destruct (C a I) as (_ & R & _).
  assert (V : Forall (fun s =>
                Sentence.author_role s =
                  (if Message.isTeam (Sentence.original_message s)
                   then team else client))
              (Accumulator.sentences a)).
  { rewrite Forall_forall. intros s Is.
    pose proof (prepareSentences_provenance messages 0) as V.
    rewrite Forall_forall in V. apply V.
    rewrite <- P. apply in_concat. exists (Accumulator.sentences a).
    split; [now apply in_map | exact Is]. }
  unfold finalizeChunk in F.
  destruct (length (Accumulator.sentences a) =? 0)%nat; [discriminate|].
  destruct (_ <? _)%Z; [discriminate|].
  injection F as <-. simpl. rewrite R. clear R I.
  induction V as [|s ss Vs _ IH]; simpl.
  - split; auto.
  - rewrite Vs.
    destruct (Message.isTeam (Sentence.original_message s)) eqn:Ts; simpl.
    + rewrite IH. split; [now constructor|].
      intros F. now inversion F.
    + split; [discriminate|]. intros F. inversion F. congruence.
Qed.

(* ================================================================== *)
(** * What every chunk satisfies *)
(* ================================================================== *)

Lemma finalizeChunk_bounds a minLength maxLength c :
  Accumulator.sentences a <> [] ->
  Forall (fun s => solid (Sentence.text s)) (Accumulator.sentences a) ->
  finalizeChunk a minLength maxLength = Some c ->
  1 <= Chunk.sentence_count (Chunk.metadata c) /\
  (minLength <= Z.of_nat (Chunk.original_length (Chunk.metadata c)))%Z /\
  ((Z.of_nat (Chunk.original_length (Chunk.metadata c)) <= maxLength)%Z ->
   length (Chunk.content c) = Chunk.original_length (Chunk.metadata c)) /\
  ((maxLength < Z.of_nat (Chunk.original_length (Chunk.metadata c)))%Z ->
   length (Chunk.content c) = Z.to_nat maxLength + 3).
Proof.
  intros N F H.
  pose proof (finalizeChunk_content a minLength maxLength N F) as C.
  rewrite H in C. destruct C as (M & C & K).
  assert (O : Chunk.original_length (Chunk.metadata c) =
              length (joinedContent (Accumulator.sentences a))).
  { unfold finalizeChunk in H.
    destruct (length (Accumulator.sentences a) =? 0)%nat; [discriminate|].
    destruct (_ <? minLength)%Z; [discriminate|].
    injection H as <-. reflexivity. }
  rewrite O, C, K. unfold truncatedContent.
  split; [destruct (Accumulator.sentences a); [congruence | simpl; lia]|].
  split; [exact M|]. split; intros L.
  - apply Z.ltb_ge in L. now rewrite L.
  - pose proof L as L'. apply Z.ltb_lt in L'. rewrite L'.
    rewrite substring_0, length_app, length_firstn. simpl. lia.
Qed.

(** Every chunk of a successful call holds at least one sentence and its
    content before truncation has at least the minimum length.  The
    content has that original length when it is within the maximum
    length; otherwise it has the maximum length (none when the maximum is
    negative) and the three characters of the ellipsis more. *)
Theorem semanticChunk_chunk_bounds config provider messages options chunks :
  semanticChunk config provider messages options = Ok chunks ->
  Forall
    (fun c =>
       1 <= Chunk.sentence_count (Chunk.metadata c) /\
       (effectiveMinChunkLength config options
        <= Z.of_nat (Chunk.original_length (Chunk.metadata c)))%Z /\
       ((Z.of_nat (Chunk.original_length (Chunk.metadata c))
         <= effectiveMaxChunkLength config options)%Z ->
        length (Chunk.content c) =
          Chunk.original_length (Chunk.metadata c)) /\
       ((effectiveMaxChunkLength config options
         < Z.of_nat (Chunk.original_length (Chunk.metadata c)))%Z ->
        length (Chunk.content c) =
          Z.to_nat (effectiveMaxChunkLength config options) + 3))
    chunks.
Proof.
  intros H.
  destruct (semanticChunk_accumulators _ _ _ _ _ H) as (accs & P & N & ->).
  assert (S : Forall (Forall (fun s => solid (Sentence.text s)))
                     (map Accumulator.sentences accs)).
  { apply Forall_concat. rewrite P. apply prepareSentences_solid. }
  rewrite Forall_map in S. rewrite Forall_forall in *.
  intros c I. apply emitted_In in I. destruct I as (a & Ia & F).
  apply (finalizeChunk_bounds a _ _ c (N a Ia) (S a Ia) F).
Qed.

Lemma emitted_counts minLength maxLength accs :
  Forall (fun a => Accumulator.sentences a <> []) accs ->
  list_sum (map (fun c => Chunk.sentence_count (Chunk.metadata c))
                (emitted minLength maxLength accs))
  <= length (concat (map Accumulator.sentences accs)) /\
  length (emitted minLength maxLength accs)
  <= length (concat (map Accumulator.sentences accs)).
Proof.
  induction 1 as [|a accs N _ [IH1 IH2]]; [simpl; lia|].
  rewrite emitted_cons. simpl concat.
  rewrite map_app, list_sum_app, !length_app.
  assert (P : 1 <= length (Accumulator.sentences a))
    by (destruct (Accumulator.sentences a); [congruence | simpl; lia]).
  unfold pushFinalized.
  destruct (finalizeChunk a minLength maxLength) as [c|] eqn:F.
  - assert (K : Chunk.sentence_count (Chunk.metadata c) =
                length (Accumulator.sentences a)).
    { unfold finalizeChunk in F.
      destruct (length (Accumulator.sentences a) =? 0)%nat; [discriminate|].
      destruct (_ <? minLength)%Z; [discriminate|].
      injection F as <-. reflexivity. }
    cbn [app map list_sum fold_right length]. rewrite K. lia.
  - cbn [app map list_sum fold_right length]. lia.
Qed.

(** The chunks of a successful call account for each sentence at most
    once: their sentence counts add up to at most the number of
    sentences, and there are at most as many chunks as sentences. *)
Theorem semanticChunk_sentence_counts config provider messages options chunks :
  semanticChunk config provider messages options = Ok chunks ->
  list_sum (map (fun c => Chunk.sentence_count (Chunk.metadata c)) chunks)
  <= length (prepareSentences messages 0) /\
  length chunks <= length (prepareSentences messages 0).
Proof.
  intros H.
  destruct (semanticChunk_accumulators _ _ _ _ _ H) as (accs & P & N & ->).
  rewrite <- P. now apply emitted_counts.
Qed.

(* ================================================================== *)
(** * Failures of the similarity engine *)
(* ================================================================== *)

Lemma dotProduct_ok vecA vecB :
  length vecA = length vecB -> exists x, dotProduct vecA vecB = Ok x.
Proof.
  intros L. unfold dotProduct. apply Nat.eqb_eq in L. rewrite L.
  eexists. reflexivity.
Qed.

Lemma cosineSimilarityBatch_cons_ok (baseVector v : vector) rest :
  length v = length baseVector ->
  exists x,
    cosineSimilarityBatch baseVector (v :: rest) =
    (sims <- cosineSimilarityBatch baseVector rest ;; Ok (x :: sims)).
Proof.
  intros L. unfold cosineSimilarityBatch. cbn [mapM]. cbv zeta.
  rewrite L, Nat.eqb_refl. cbn [negb].
  destruct (dotProduct_ok baseVector v (eq_sym L)) as [d ->].
  cbn [bind]. destruct (_ || _); eexists; reflexivity.
Qed.

Lemma cosineSimilarityBatch_cons_err (baseVector v : vector) rest :
  length v <> length baseVector ->
  cosineSimilarityBatch baseVector (v :: rest) =
  Err (VectorLengthMismatch (length baseVector) (length v)).
Proof.
  intros N. unfold cosineSimilarityBatch. cbn [mapM]. cbv zeta.
  apply Nat.eqb_neq in N. now rewrite N.
Qed.

(** The batch function succeeds exactly when every vector has the length
    of the base vector, and then it returns one similarity for each
    vector; otherwise it fails with the length mismatch of the first
    vector of another length. *)
Theorem cosineSimilarityBatch_lengths (baseVector : vector)
    (vectors : list vector) :
  (Forall (fun v : vector => length v = length baseVector) vectors ->
   exists sims,
     cosineSimilarityBatch baseVector vectors = Ok sims /\
     length sims = length vectors) /\
  (forall before (v : vector) after,
     vectors = before ++ v :: after ->
     Forall (fun v : vector => length v = length baseVector) before ->
     length v <> length baseVector ->
     cosineSimilarityBatch baseVector vectors =
     Err (VectorLengthMismatch (length baseVector) (length v))).
Proof.
  split.
  - induction 1 as [|v r L _ (sims & IH & K)].
    + exists []. split; reflexivity.
    + destruct (cosineSimilarityBatch_cons_ok baseVector v r L) as [x ->].
      rewrite IH. cbn [bind].
      exists (x :: sims). split; [reflexivity | simpl; now rewrite K].
  - intros before v after -> F N.
    induction F as [|u r L _ IH].
    + now apply cosineSimilarityBatch_cons_err.
    + cbn [app].
      destruct (cosineSimilarityBatch_cons_ok baseVector u (r ++ v :: after) L)
        as [x ->].
      rewrite IH. reflexivity.
Qed.

Lemma cosineSimilarityBatch_lengths_witness :
  cosineSimilarityBatch [1; 0]%float [[0; 1]; [1]; [2; 2]]%float =
  Err (VectorLengthMismatch 2 1).
Proof.
  apply (proj2 (cosineSimilarityBatch_lengths
                  [1; 0]%float [[0; 1]; [1]; [2; 2]]%float)
               [[0; 1]%float] [1%float] [[2; 2]%float]).
  - reflexivity.
  - repeat constructor.
  - simpl. lia.
Defined.

Lemma magnitude_zero n : magnitude (repeat 0%float n) = 0%float.
Proof.
  unfold magnitude.
  assert (E : fold_left (fun sum x => (sum + x * x)%float)
                        (repeat 0%float n) 0%float = 0%float).
  { induction n as [|n IH]; [reflexivity|]. simpl. exact IH. }
  rewrite E. reflexivity.
Qed.

(** The zero vector has similarity [0] with every vector of its length,
    itself included, on either side. *)
Theorem cosineSimilarity_zero_vector n v :
  length v = n -> n <> 0 ->
  cosineSimilarity (repeat 0%float n) v = Ok 0%float /\
  cosineSimilarity v (repeat 0%float n) = Ok 0%float.
Proof.
  intros L N. unfold cosineSimilarity.
  rewrite repeat_length, L, Nat.eqb_refl. cbn [negb].
  apply Nat.eqb_neq in N. rewrite N.
  destruct (dotProduct_ok (repeat 0%float n) v) as [d ->];
    [now rewrite repeat_length|].
  destruct (dotProduct_ok v (repeat 0%float n)) as [d' ->];
    [now rewrite repeat_length|].
  cbn [bind]. rewrite magnitude_zero.
  split; [reflexivity|]. now rewrite orb_true_r.
Qed.

Lemma cosineSimilarity_zero_vector_witness :
  cosineSimilarity (repeat 0%float 2) [3; 4]%float = Ok 0%float /\
  cosineSimilarity [3; 4]%float (repeat 0%float 2) = Ok 0%float.
Proof.
  apply (cosineSimilarity_zero_vector 2 [3; 4]%float);
    [reflexivity | discriminate].
Defined.

(* ================================================================== *)
(** * When the chunker succeeds *)
(* ================================================================== *)

Section WalkFacts.

Variables (threshold : float) (minLength maxLength : Z).

Lemma batch_pair_ok (prev cur : vector) :
  length cur = length prev ->
  exists x, cosineSimilarityBatch prev [cur] = Ok [x].
Proof.
  intros L.
  destruct (cosineSimilarityBatch_cons_ok prev cur [] L) as [x ->].
  exists x. reflexivity.
Qed.

Lemma batch_pair_err (prev cur : vector) :
  length cur <> length prev ->
  cosineSimilarityBatch prev [cur] =
  Err (VectorLengthMismatch (length prev) (length cur)).
Proof.
  intros N. now apply cosineSimilarityBatch_cons_err.
Qed.

Lemma walk_same_dimension rest :
  forall prev chunks cur,
    Forall (fun p => length (snd p) = length prev) rest ->
    exists st,
      walk threshold minLength maxLength prev rest chunks cur = Ok st.
Proof.
  induction rest as [|[s e] rest' IH]; intros prev chunks cur F.
  - eexists. reflexivity.
  - apply Forall_cons_iff in F. destruct F as [L F]. simpl in L.
    cbn [walk]. destruct (batch_pair_ok prev e L) as [x ->]. cbn [bind].
    assert (F' : Forall (fun p => length (snd p) = length e) rest').
    { eapply Forall_impl; [|exact F]. simpl. intros p. now rewrite L. }
    destruct (similarEnough threshold [x]); now apply IH.
Qed.

Lemma walk_result rest :
  forall prev chunks cur,
    match walk threshold minLength maxLength prev rest chunks cur with
    | Ok _ => Forall (fun p => length (snd p) = length prev) rest
    | Err (VectorLengthMismatch _ _) => True
    | Err _ => False
    end.
Proof.
  induction rest as [|[s e] rest' IH]; intros prev chunks cur.
  - simpl. constructor.
  - cbn [walk].
    destruct (Nat.eq_dec (length e) (length prev)) as [L|L].
    + destruct (batch_pair_ok prev e L) as [x ->]. cbn [bind].
      destruct (similarEnough threshold [x]).
      * specialize (IH e chunks (extendChunk cur s e)).
        destruct (walk _ _ _ e rest' _ _); auto.
        constructor; auto.
        eapply Forall_impl; [|exact IH]. simpl. intros p. now rewrite L.
      * specialize (IH e (pushFinalized chunks cur minLength maxLength)
                       (startChunk s e)).
        destruct (walk _ _ _ e rest' _ _); auto.
        constructor; auto.
        eapply Forall_impl; [|exact IH]. simpl. intros p. now rewrite L.
    + rewrite (batch_pair_err prev e L). cbn [bind]. exact I.
Qed.

End WalkFacts.

Lemma combine_snd_Forall {A B : Type} (P : B -> Prop)
    (xs : list A) (ys : list B) :
  length xs = length ys ->
  (Forall (fun p => P (snd p)) (combine xs ys) <-> Forall P ys).
Proof.
  revert ys. induction xs as [|x xs IH]; intros [|y ys] L; simpl in *;
    try discriminate.
  - split; constructor.
  - rewrite !Forall_cons_iff. simpl. rewrite IH by lia. reflexivity.
Qed.

Lemma semanticChunk_ok_iff
    config provider messages options embeddings :
  prepareSentences messages 0 <> [] ->
  provider (map Sentence.text (prepareSentences messages 0)) = Ok embeddings ->
  ((exists chunks,
      semanticChunk config provider messages options = Ok chunks) <->
   length embeddings = length (prepareSentences messages 0) /\
   sameDimension embeddings).
Proof.
  intros N P. rewrite semanticChunk_sentences.
  destruct (prepareSentences messages 0) as [|s0 ss]; [now elim N|].
  rewrite P.
  destruct (length embeddings =? length (s0 :: ss))%nat eqn:L; cbn [negb].
  - apply Nat.eqb_eq in L.
    destruct embeddings as [|e0 es]; [discriminate|].
    assert (Ls : length ss = length es) by (simpl in L; lia).
    unfold sameDimension.
    pose proof (walk_result (effectiveThreshold config options)
                  (effectiveMinChunkLength config options)
                  (effectiveMaxChunkLength config options)
                  (combine ss es) e0 [] (startChunk s0 e0)) as W.
    split.
    + intros [chunks H]. split; [exact L|].
      destruct (walk _ _ _ e0 (combine ss es) _ _); [|discriminate].
      now apply (combine_snd_Forall (fun v => length v = length e0)) in W.
    + intros [_ F].
      apply (combine_snd_Forall (fun v => length v = length e0) ss es Ls) in F.
      destruct (walk_same_dimension (effectiveThreshold config options)
                  (effectiveMinChunkLength config options)
                  (effectiveMaxChunkLength config options)
                  (combine ss es) e0 [] (startChunk s0 e0) F) as [st ->].
      eexists. reflexivity.
  - apply Nat.eqb_neq in L. split.
    + intros [chunks H]. discriminate.
    + intros [E _]. contradiction.
Qed.

(** Once the provider has answered, the call succeeds exactly when it
    received one vector for each sentence and all the vectors have the
    same length; vectors of length zero are accepted. *)
Theorem semanticChunk_succeeds_iff
    config provider messages options embeddings :
  prepareSentences messages 0 <> [] ->
  provider (map Sentence.text (prepareSentences messages 0)) = Ok embeddings ->
  ((exists chunks,
      semanticChunk config provider messages options = Ok chunks) <->
   length embeddings = length (prepareSentences messages 0) /\
   sameDimension embeddings).
Proof. exact (semanticChunk_ok_iff config provider messages options embeddings). Qed.

Lemma semanticChunk_succeeds_iff_witness :
  (exists chunks,
     semanticChunk (CONFIG Samples.envUnset)
       (Samples.constantProvider [])
       [Samples.thanks; Samples.noProblem] noOptions = Ok chunks) <->
  length [@nil float; @nil float] =
    length (prepareSentences [Samples.thanks; Samples.noProblem] 0) /\
  sameDimension [@nil float; @nil float].
Proof.
  apply (semanticChunk_succeeds_iff (CONFIG Samples.envUnset)
           (Samples.constantProvider [])
           [Samples.thanks; Samples.noProblem] noOptions [[]; []]).
  - vm_compute. discriminate.
  - reflexivity.
Defined.

(** The call fails in three ways only: the failure of the provider, the
    embedding count mismatch, and a vector length mismatch between two
    consecutive embeddings.  It never fails with the empty vector
    error. *)
Theorem semanticChunk_errors config provider messages options :
  match semanticChunk config provider messages options with
  | Ok _ => True
  | Err (FailedToGenerateEmbeddings _) => True
  | Err (EmbeddingCountMismatch _ _) => True
  | Err (VectorLengthMismatch _ _) => True
  | Err _ => False
  end.
Proof.
  rewrite semanticChunk_sentences.
  destruct (prepareSentences messages 0) as [|s0 ss]; [exact I|].
  destruct (provider _) as [embs|e]; [|exact I].
  destruct (negb _); [exact I|].
  destruct embs as [|e0 es]; [exact I|].
  pose proof (walk_result (effectiveThreshold config options)
                (effectiveMinChunkLength config options)
                (effectiveMaxChunkLength config options)
                (combine ss es) e0 [] (startChunk s0 e0)) as W.
  destruct (walk _ _ _ e0 (combine ss es) _ _) as [st|err]; [exact I|].
  cbn [bind]. destruct err; auto.
Qed.

(* ================================================================== *)
(** * The provider used in production *)
(* ================================================================== *)

Lemma mapWithIndex_extractEmbedding items :
  forall index embeddings,
    Embeddings.mapWithIndex Embeddings.extractEmbedding index items =
      Ok embeddings ->
    length embeddings = length items /\
    Forall (fun e : vector => length e = Embeddings.EMBEDDING_DIMENSIONS)
           embeddings.
Proof.
  induction items as [|item rest IH]; intros index embeddings H.
  - simpl in H. injection H as <-. split; [reflexivity | constructor].
  - cbn [Embeddings.mapWithIndex] in H.
    unfold Embeddings.extractEmbedding at 1 in H.
    destruct item as [e|]; [|discriminate].
    destruct (length e =? Embeddings.EMBEDDING_DIMENSIONS)%nat eqn:D;
      [|discriminate].
    cbn [negb bind] in H. apply Nat.eqb_eq in D.
    destruct (Embeddings.mapWithIndex _ (S index) rest) as [ys|] eqn:R;
      [|discriminate].
    cbn [bind] in H. injection H as <-.
    destruct (IH _ _ R) as [L F].
    split; [simpl; now rewrite L | now constructor].
Qed.

Lemma generateEmbeddingsBatch_ok client texts embeddings :
  Embeddings.generateEmbeddingsBatch client texts = Ok embeddings ->
  length embeddings = length (Embeddings.validTexts texts) /\
  Forall (fun e : vector => length e = 1536) embeddings /\
  1 <= length embeddings <= 2048.
Proof.
  unfold Embeddings.generateEmbeddingsBatch. intros H.
  destruct (length texts =? 0)%nat; [discriminate|].
  cbv zeta in H.
  destruct (length (Embeddings.validTexts texts) =? 0)%nat eqn:Z;
    [discriminate|].
  destruct (Embeddings.MAX_BATCH_SIZE <? length (Embeddings.validTexts texts))%nat
    eqn:M; [discriminate|].
  apply Nat.eqb_neq in Z. apply Nat.ltb_ge in M.
  unfold Embeddings.MAX_BATCH_SIZE in M.
  destruct (client _) as [[items|]| | | |]; try discriminate.
  destruct (length items =? length (Embeddings.validTexts texts))%nat eqn:L;
    [|discriminate].
  cbn [negb] in H. apply Nat.eqb_eq in L.
  destruct (mapWithIndex_extractEmbedding _ _ _ H) as [K F].
  split; [congruence|]. split; [exact F | lia].
Qed.

(** When [generateEmbeddingsBatch] returns, it returns one vector of 1536
    numbers for each text that is not blank, between 1 and 2048 of them:
    blank texts get no vector, so the result is shorter than the input
    when the input holds one. *)
Theorem generateEmbeddingsBatch_result client texts embeddings :
  Embeddings.generateEmbeddingsBatch client texts = Ok embeddings ->
  length embeddings = length (Embeddings.validTexts texts) /\
  Forall (fun e : vector => length e = 1536) embeddings /\
  1 <= length embeddings <= 2048.
Proof. exact (generateEmbeddingsBatch_ok client texts embeddings). Qed.

Lemma generateEmbeddingsBatch_result_witness :
  length [repeat 0%float 1536; repeat 0%float 1536] =
    length (Embeddings.validTexts [js "hi"; js "  "; js " yo "]) /\
  Forall (fun e : vector => length e = 1536)
         [repeat 0%float 1536; repeat 0%float 1536] /\
  1 <= length [repeat 0%float 1536; repeat 0%float 1536] <= 2048.
Proof.
  apply (generateEmbeddingsBatch_result MoreSamples.zeroClient
           [js "hi"; js "  "; js " yo "]).
  vm_compute. reflexivity.
Defined.

Lemma validTexts_solid texts :
  Forall solid texts -> Embeddings.validTexts texts = texts.
Proof.
  unfold Embeddings.validTexts.
  induction 1 as [|t r [T N] _ IH]; [reflexivity|].
  simpl. rewrite (trimmed_trim _ T).
  destruct t as [|c y]; [congruence|]. simpl. now rewrite IH.
Qed.

Lemma sameDimension_all (d : nat) (vectors : list vector) :
  Forall (fun e : vector => length e = d) vectors -> sameDimension vectors.
Proof.
  intros F. destruct vectors as [|v0 rest]; [exact I|].
  apply Forall_cons_iff in F. destruct F as [L F]. simpl.
  eapply Forall_impl; [|exact F]. simpl. intros v. now rewrite L.
Qed.

(** With the provider used in production the call either succeeds or
    fails with the wrapped failure of the provider: the count of vectors
    and their lengths are checked by the provider, so the embedding count
    mismatch and the vector length mismatch cannot occur. *)
Theorem semanticChunk_with_generateEmbeddingsBatch
    config client messages options :
  match semanticChunk config (Embeddings.generateEmbeddingsBatch client)
                      messages options with
  | Ok _ => True
  | Err (FailedToGenerateEmbeddings _) => True
  | Err _ => False
  end.
Proof.
  destruct (prepareSentences messages 0) as [|s0 ss] eqn:S.
  { rewrite semanticChunk_sentences, S. exact I. }
  destruct (Embeddings.generateEmbeddingsBatch client
              (map Sentence.text (prepareSentences messages 0)))
    as [embeddings|e] eqn:P.
  - destruct (generateEmbeddingsBatch_ok _ _ _ P) as (L & F & _).
    rewrite validTexts_solid in L.
    2:{ apply Forall_map, prepareSentences_solid. }
    rewrite length_map in L.
    assert (N : prepareSentences messages 0 <> []) by (rewrite S; discriminate).
    destruct (proj2 (semanticChunk_ok_iff config _ messages options
                       embeddings N P))
      as [chunks ->]; [|exact I].
    split; [exact L | now apply sameDimension_all with (d := 1536)].
  - rewrite semanticChunk_provider_err with (e := e); auto.
    rewrite S. discriminate.
Qed.

(* ================================================================== *)
(** * Instances *)
(* ================================================================== *)

(** A blank message and a message without content. *)
Lemma semanticChunk_no_text_witness :
  semanticChunk (CONFIG Samples.envUnset) MoreSamples.failingProvider
    [MoreSamples.blankMessage; MoreSamples.missingContent] noOptions = Ok [].
Proof.
  apply (semanticChunk_no_text (CONFIG Samples.envUnset)
           MoreSamples.failingProvider
           [MoreSamples.blankMessage; MoreSamples.missingContent] noOptions).
  repeat constructor.
Defined.

(** The provider fails on the only sentence. *)
Lemma semanticChunk_provider_failure_witness :
  semanticChunk (CONFIG Samples.envUnset) MoreSamples.failingProvider
    [Samples.thanks] noOptions =
  Err (FailedToGenerateEmbeddings
         (ProviderError (js "OpenAI connection error: timeout"))).
Proof.
  apply (semanticChunk_provider_failure (CONFIG Samples.envUnset)
           MoreSamples.failingProvider [Samples.thanks] noOptions).
  - vm_compute. discriminate.
  - reflexivity.
Defined.

(** The scenario of the specification. *)
Lemma chunk_timestamp_of_first_sentence_witness :
  exists accs,
    concat (map Accumulator.sentences accs) =
    prepareSentences [Samples.thanks; Samples.noProblem] 0 /\
    [Samples.scenarioChunk] =
    emitted (effectiveMinChunkLength (CONFIG Samples.envUnset) noOptions)
            (effectiveMaxChunkLength (CONFIG Samples.envUnset) noOptions)
            accs /\
    forall a c,
      In a accs ->
      finalizeChunk a
        (effectiveMinChunkLength (CONFIG Samples.envUnset) noOptions)
        (effectiveMaxChunkLength (CONFIG Samples.envUnset) noOptions) = Some c ->
      exists s rest,
        Accumulator.sentences a = s :: rest /\
        In (Sentence.original_message s) [Samples.thanks; Samples.noProblem] /\
        Chunk.message_timestamp c =
          Message.timestamp (Sentence.original_message s).
Proof.
  apply (chunk_timestamp_of_first_sentence (CONFIG Samples.envUnset)
           (Samples.constantProvider Samples.unitX)
           [Samples.thanks; Samples.noProblem] noOptions
           [Samples.scenarioChunk]).
  vm_compute. reflexivity.
Defined.

(** The scenario with zero vectors: the short client sentence is dropped
    and the team sentence makes a chunk of its own. *)
Lemma chunk_team_iff_all_team_witness :
  exists accs,
    concat (map Accumulator.sentences accs) =
    prepareSentences [Samples.thanks; Samples.noProblem] 0 /\
    [MoreSamples.noProblemChunk] =
    emitted (effectiveMinChunkLength (CONFIG Samples.envUnset) noOptions)
            (effectiveMaxChunkLength (CONFIG Samples.envUnset) noOptions)
            accs /\
    forall a c,
      In a accs ->
      finalizeChunk a
        (effectiveMinChunkLength (CONFIG Samples.envUnset) noOptions)
        (effectiveMaxChunkLength (CONFIG Samples.envUnset) noOptions) = Some c ->
      (Chunk.author_role c = team <->
       Forall (fun s => Message.isTeam (Sentence.original_message s) = true)
              (Accumulator.sentences a)).
Proof.
  apply (chunk_team_iff_all_team (CONFIG Samples.envUnset)
           (Samples.constantProvider Samples.zeroVector)
           [Samples.thanks; Samples.noProblem] noOptions
           [MoreSamples.noProblemChunk]).
  vm_compute. reflexivity.
Defined.

(** A chunk cut after 5 characters: its content has 8. *)
Lemma semanticChunk_chunk_bounds_witness :
  Forall
    (fun c =>
       1 <= Chunk.sentence_count (Chunk.metadata c) /\
       (effectiveMinChunkLength (CONFIG Samples.envUnset)
                                Samples.truncatingOptions
        <= Z.of_nat (Chunk.original_length (Chunk.metadata c)))%Z /\
       ((Z.of_nat (Chunk.original_length (Chunk.metadata c))
         <= effectiveMaxChunkLength (CONFIG Samples.envUnset)
                                    Samples.truncatingOptions)%Z ->
        length (Chunk.content c) =
          Chunk.original_length (Chunk.metadata c)) /\
       ((effectiveMaxChunkLength (CONFIG Samples.envUnset)
                                 Samples.truncatingOptions
         < Z.of_nat (Chunk.original_length (Chunk.metadata c)))%Z ->
        length (Chunk.content c) =
          Z.to_nat (effectiveMaxChunkLength (CONFIG Samples.envUnset)
                                            Samples.truncatingOptions) + 3))
    [Samples.truncatedChunk].
Proof.
  apply (semanticChunk_chunk_bounds (CONFIG Samples.envUnset)
           (Samples.constantProvider Samples.unitX)
           [Samples.helloWorld; Samples.goodbyeNow]
           Samples.truncatingOptions [Samples.truncatedChunk]).
  vm_compute. reflexivity.
Defined.

(** Two sentences, of which the first is dropped for its length. *)
Lemma semanticChunk_sentence_counts_witness :
  list_sum (map (fun c => Chunk.sentence_count (Chunk.metadata c))
                [MoreSamples.noProblemChunk])
  <= length (prepareSentences [Samples.thanks; Samples.noProblem] 0) /\
  length [MoreSamples.noProblemChunk]
  <= length (prepareSentences [Samples.thanks; Samples.noProblem] 0).
Proof.
  apply (semanticChunk_sentence_counts (CONFIG Samples.envUnset)
           (Samples.constantProvider Samples.zeroVector)
           [Samples.thanks; Samples.noProblem] noOptions
           [MoreSamples.noProblemChunk]).
  vm_compute. reflexivity.
Defined.

(** On a base vector that is not empty, the batch function gives what
    the single-pair function gives on each vector in turn, similarities
    and failure alike. *)
Theorem cosineSimilarityBatch_agrees_with_single
    (baseVector : vector) (vectors : list vector) :
  baseVector <> [] ->
  cosineSimilarityBatch baseVector vectors =
  mapM (cosineSimilarity baseVector) vectors.
Proof. exact (cosineSimilarityBatch_pairwise baseVector vectors). Qed.

(** A base vector of two numbers against a vector of its length and a
    longer one. *)
Lemma cosineSimilarityBatch_agrees_with_single_witness :
  cosineSimilarityBatch [3; 4]%float [[3; 4]; [1; 2; 3]]%float =
  mapM (cosineSimilarity [3; 4]%float) [[3; 4]; [1; 2; 3]]%float.
Proof.
  apply (cosineSimilarityBatch_agrees_with_single
           [3; 4]%float [[3; 4]; [1; 2; 3]]%float).
  discriminate.
Defined.

(* ================================================================== *)
(** * Identical embeddings: the similarity of a vector with itself *)
(* ================================================================== *)













(* ================================================================== *)
(** * The results of splitIntoSentences that are empty *)
(* ================================================================== *)

(** At the end of the loop on a normalized text that is not empty, "add
    remaining text" leaves at least one sentence. *)
Lemma addRemaining_not_nil text :
  normalizeForSplit text <> [] ->
  addRemaining (normalizeForSplit text)
               (splitLoop (normalizeForSplit text)) <> [].
Proof.
  intros N.
  destruct (normalizeForSplit_spaced text) as [E|Sp]; [contradiction|].
  destruct (normalizeForSplit text) as [|c r]; [contradiction|].
  apply (lossless_scan (c :: r) (length (c :: r)) (c :: r) [] [] true);
    auto; congruence.
Qed.

(** No sentence is returned exactly for the texts made of white space
    only (the empty text among them).  For every other text the loop and
    "add remaining text" already give at least one sentence, and they
    give the result: the final fallback to the whole text is never
    taken. *)
Theorem splitIntoSentences_empty_iff_blank text :
  (splitIntoSentences text = [] <->
   Forall (fun c => isWhiteSpace c = true) text) /\
  (normalizeForSplit text <> [] ->
   addRemaining (normalizeForSplit text)
                (splitLoop (normalizeForSplit text)) <> [] /\
   splitIntoSentences text =
     addRemaining (normalizeForSplit text)
                  (splitLoop (normalizeForSplit text))).
Proof.
  split; [exact (splitIntoSentences_nil_iff text)|].
  intros N. pose proof (addRemaining_not_nil text N) as A.
  split; [exact A|].
  rewrite splitIntoSentences_normalized.
  destruct (normalizeForSplit text) as [|c r]; [contradiction|].
  destruct (addRemaining (c :: r) (splitLoop (c :: r))); [now elim A|].
  reflexivity.
Qed.

(** A text without punctuation: its only sentence comes from "add
    remaining text". *)
Lemma splitIntoSentences_empty_iff_blank_witness :
  addRemaining (normalizeForSplit (js "hello"))
               (splitLoop (normalizeForSplit (js "hello"))) <> [] /\
  splitIntoSentences (js "hello") =
    addRemaining (normalizeForSplit (js "hello"))
                 (splitLoop (normalizeForSplit (js "hello"))).
Proof.
  apply (proj2 (splitIntoSentences_empty_iff_blank (js "hello"))).
  vm_compute. discriminate.
Defined.

(** Outside the unit basis vectors the similarity of a vector with itself
    need not be [1]: with components of [2^600] the squares overflow and
    it is [NaN], with components of [2^-600] they underflow and it is
    [0]. *)
Lemma self_similarity_out_of_range :
  cosineSimilarityBatch [0x1p600; 0x1p600]%float [[0x1p600; 0x1p600]%float] =
    Ok [nan] /\
  cosineSimilarityBatch [0x1p-600; 0x1p-600]%float
                        [[0x1p-600; 0x1p-600]%float] = Ok [0%float].
Proof. split; vm_compute; reflexivity. Qed.
